(** * pps.py: the directory-tree renderer, its sinks and [main]

    A shallow embedding of the functions of [src/pps.py].

    Python [str] values are modelled as [string]; a name is taken as its
    UTF-8 byte sequence, whose bytewise order is the codepoint order that
    Python's [sorted] uses on [str].  The operating-system calls
    ([os.listdir], [os.path.isfile], [os.path.isdir], [os.path.join]) are
    an interface the renderer is parametrised by; a finite directory tree
    gives one instance of it.

    [save_to_pdf], [save_to_text_file] and [main] are moreover embedded as
    programs over the calls they make to the outside (printing, prompting,
    files, [fpdf], the browser); their properties hold in every world,
    that is, whatever each call returns or raises. *)

From Stdlib Require Import String Ascii List Bool Arith ZArith Lia.
From Stdlib Require Import Sorting.Sorted Sorting.Permutation Sorting.Mergesort.
From Stdlib Require Import Orders.
Import ListNotations.
Local Open Scope string_scope.
Local Open Scope list_scope.

(** Python's [+] on [str]; like it, the notation associates to the left. *)
Infix "+++" := String.append (at level 50, left associativity).

Set Implicit Arguments.

(** ** Outcomes of a call

    A call returns a value, raises an exception of the operating system,
    or exhausts the depth of recursion it is allowed.  The budget [fuel]
    of a recursive function is the number of nested calls the interpreter
    still permits, and [OutOfFuel] is the [RecursionError] that Python
    raises when they are used up; like any exception that nothing
    catches, it ends every caller. *)

Inductive outcome (E A : Type) : Type :=
| Return (a : A)
| Raise (e : E)
| OutOfFuel.

Arguments Return {E A} a.
Arguments Raise {E A} e.
Arguments OutOfFuel {E A}.

Definition bind {E A B} (m : outcome E A) (k : A -> outcome E B) : outcome E B :=
  match m with
  | Return a => k a
  | Raise e => Raise e
  | OutOfFuel => OutOfFuel
  end.

Notation "x <- m ;; k" := (bind m (fun x => k))
  (at level 61, m at next level, right associativity).

(** ** [sorted] on a list of [str] *)

Module StrOrder <: TotalLeBool.
Definition t := string.
Definition leb (a b : string) : bool := String.leb a b.
Definition leb_total : forall a b, leb a b = true \/ leb b a = true :=
  String.leb_total.
End StrOrder.

Module StrSort := Sort StrOrder.

Definition sorted (names : list string) : list string := StrSort.sort names.

(** The order [sorted] sorts by: [str] comparison, codepoint by codepoint. *)
Definition str_le (a b : string) : Prop := String.leb a b = true.

(** [enumerate l] pairs every item with its index, from 0. *)
Definition enumerate {A} (l : list A) : list (nat * A) :=
  combine (seq 0 (length l)) l.

(** ** The renderer *)

Section Render.

Variable path : Type.
Variable OSError : Type.

(** [os.listdir]: the names in a directory, or the error it raises. *)
Variable listdir : path -> OSError + list string.
(** [os.path.isfile], [os.path.isdir], [os.path.join]. *)
Variable isfile : path -> bool.
Variable isdir : path -> bool.
Variable join : path -> string -> path.

(** The first loop, [for i, subdir in enumerate(dirs)], over the items
    still to visit; [output_lines] is the list the loop appends to and
    [rec] the recursive call. *)
Fixpoint dirs_loop (rec : path -> string -> outcome OSError (list string))
    (directory : path) (prefix : string) (dirs : list string)
    (todo : list (nat * string)) (output_lines : list string)
    : outcome OSError (list string) :=
  match todo with
  | [] => Return output_lines
  | (i, subdir) :: todo' =>
      let is_last := (Z.of_nat i =? Z.of_nat (length dirs) - 1)%Z in
      let symbol := if is_last then "`-- " else "|-- " in
      let output_lines := output_lines ++ [prefix +++ symbol +++ subdir +++ "/"] in
      let new_prefix := prefix +++ (if is_last then "    " else "|   ") in
      sub <- rec (join directory subdir) new_prefix ;;
      dirs_loop rec directory prefix dirs todo' (output_lines ++ sub)
  end.

(** The second loop, [for i, file in enumerate(files)]. *)
Fixpoint files_loop (prefix : string) (files : list string)
    (todo : list (nat * string)) (output_lines : list string) : list string :=
  match todo with
  | [] => output_lines
  | (i, file) :: todo' =>
      let is_last := (Z.of_nat i =? Z.of_nat (length files) - 1)%Z in
      let symbol := if is_last then "`-- " else "|-- " in
      files_loop prefix files todo' (output_lines ++ [prefix +++ symbol +++ file])
  end.

Fixpoint print_directory_tree (fuel : nat) (directory : path) (prefix : string)
    : outcome OSError (list string) :=
  match fuel with
  | O => OutOfFuel
  | S fuel' =>
      let output_lines := [] in
      match listdir directory with
      | inl e => Raise e
      | inr names =>
          let entries := sorted names in
          let files := filter (fun entry => isfile (join directory entry)) entries in
          let dirs := filter (fun entry => isdir (join directory entry)) entries in
          output_lines <- dirs_loop (print_directory_tree fuel') directory prefix
                            dirs (enumerate dirs) output_lines ;;
          Return (files_loop prefix files (enumerate files) output_lines)
      end
  end.

(** *** The renderer, with the path of each line

    The same traversal, where every line appended is paired with the
    path of the entry it is appended for. *)

Fixpoint traced_dirs_loop
    (rec : path -> string -> outcome OSError (list (path * string)))
    (directory : path) (prefix : string) (dirs : list string)
    (todo : list (nat * string)) (output_lines : list (path * string))
    : outcome OSError (list (path * string)) :=
  match todo with
  | [] => Return output_lines
  | (i, subdir) :: todo' =>
      let is_last := (Z.of_nat i =? Z.of_nat (length dirs) - 1)%Z in
      let symbol := if is_last then "`-- " else "|-- " in
      let output_lines :=
        output_lines
        ++ [(join directory subdir, prefix +++ symbol +++ subdir +++ "/")] in
      let new_prefix := prefix +++ (if is_last then "    " else "|   ") in
      sub <- rec (join directory subdir) new_prefix ;;
      traced_dirs_loop rec directory prefix dirs todo' (output_lines ++ sub)
  end.

Fixpoint traced_files_loop (directory : path) (prefix : string)
    (files : list string) (todo : list (nat * string))
    (output_lines : list (path * string)) : list (path * string) :=
  match todo with
  | [] => output_lines
  | (i, file) :: todo' =>
      let is_last := (Z.of_nat i =? Z.of_nat (length files) - 1)%Z in
      let symbol := if is_last then "`-- " else "|-- " in
      traced_files_loop directory prefix files todo'
        (output_lines ++ [(join directory file, prefix +++ symbol +++ file)])
  end.

Fixpoint traced (fuel : nat) (directory : path) (prefix : string)
    : outcome OSError (list (path * string)) :=
  match fuel with
  | O => OutOfFuel
  | S fuel' =>
      let output_lines := [] in
      match listdir directory with
      | inl e => Raise e
      | inr names =>
          let entries := sorted names in
          let files := filter (fun entry => isfile (join directory entry)) entries in
          let dirs := filter (fun entry => isdir (join directory entry)) entries in
          output_lines <- traced_dirs_loop (traced fuel') directory prefix
                            dirs (enumerate dirs) output_lines ;;
          Return (traced_files_loop directory prefix files
                                    (enumerate files) output_lines)
      end
  end.

(** *** Vocabulary for the statements

    The glyph of an entry, the segment its directory adds to the prefix
    of its descendants, and the two lists the listing is split into. *)

Definition last_index (i n : nat) : bool :=
  (Z.of_nat i =? Z.of_nat n - 1)%Z.

Definition glyph (is_last : bool) : string :=
  if is_last then "`-- " else "|-- ".

Definition segment (is_last : bool) : string :=
  if is_last then "    " else "|   ".

Definition files_of (directory : path) (names : list string) : list string :=
  filter (fun entry => isfile (join directory entry)) (sorted names).

Definition dirs_of (directory : path) (names : list string) : list string :=
  filter (fun entry => isdir (join directory entry)) (sorted names).

Definition dir_line (prefix : string) (n : nat) (item : nat * string) : string :=
  prefix +++ glyph (last_index (fst item) n) +++ snd item +++ "/".

Definition file_line (prefix : string) (m : nat) (item : nat * string) : string :=
  prefix +++ glyph (last_index (fst item) m) +++ snd item.

Definition child_prefix (prefix : string) (n i : nat) : string :=
  prefix +++ segment (last_index i n).

(** The block of a subdirectory: its heading line, then the lines of
    the recursive call. *)
Definition block (prefix : string) (n : nat)
    (b : (nat * string) * list string) : list string :=
  dir_line prefix n (fst b) :: snd b.

(** The lines of a traced outcome. *)
Definition lines_of (r : outcome OSError (list (path * string)))
    : outcome OSError (list string) :=
  match r with
  | Return ps => Return (map snd ps)
  | Raise e => Raise e
  | OutOfFuel => OutOfFuel
  end.

Definition traced_block (directory : path) (prefix : string) (n : nat)
    (b : (nat * string) * list (path * string)) : list (path * string) :=
  (join directory (snd (fst b)), dir_line prefix n (fst b)) :: snd b.

Definition traced_file (directory : path) (prefix : string) (m : nat)
    (item : nat * string) : path * string :=
  (join directory (snd item), file_line prefix m item).

(** [returns_all rec directory prefix n todo subs]: the recursive call on
    every item of [todo] returns the corresponding list of [subs]. *)
Definition returns_all {A : Type} (rec : path -> string -> outcome OSError A)
    (directory : path) (prefix : string) (n : nat)
    (todo : list (nat * string)) (subs : list A) : Prop :=
  Forall2 (fun item sub =>
             rec (join directory (snd item)) (child_prefix prefix n (fst item))
             = Return sub) todo subs.

(** [descends d prefix flags d' prefix']: the traversal started at [d]
    with [prefix] enters [d'] with [prefix'], through subdirectories
    whose last/non-last statuses are [flags], outermost first. *)
Inductive descends : path -> string -> list bool -> path -> string -> Prop :=
| descends_here d prefix : descends d prefix [] d prefix
| descends_into d prefix names i subdir flags d' prefix' :
    listdir d = inr names ->
    nth_error (dirs_of d names) i = Some subdir ->
    descends (join d subdir)
             (child_prefix prefix (length (dirs_of d names)) i)
             flags d' prefix' ->
    descends d prefix
             (last_index i (length (dirs_of d names)) :: flags) d' prefix'.

(** [entry_line d prefix is_dir name line]: [line] is the line of the
    entry [name] of a directory the traversal from [d] enters; [is_dir]
    tells whether the entry is a subdirectory or a file. *)
Inductive entry_line (d : path) (prefix : string)
  : bool -> string -> string -> Prop :=
| entry_dir flags d' prefix' names i subdir :
    descends d prefix flags d' prefix' ->
    listdir d' = inr names ->
    nth_error (dirs_of d' names) i = Some subdir ->
    entry_line d prefix true subdir
      (prefix' +++ glyph (last_index i (length (dirs_of d' names)))
               +++ (subdir +++ "/"))
| entry_file flags d' prefix' names j file :
    descends d prefix flags d' prefix' ->
    listdir d' = inr names ->
    nth_error (files_of d' names) j = Some file ->
    entry_line d prefix false file
      (prefix' +++ glyph (last_index j (length (files_of d' names)))
               +++ file).

End Render.

(** ** The text sink

    [save_to_text_file] opens [filepath] for writing, which truncates it,
    writes the lines joined by a newline and closes the file; each of the
    three calls may raise.  The function, with the calls it makes, is
    [save_to_text_file_calls] below.  The files it acts on are a store
    from paths to contents. *)

Definition newline : string := String "010"%char "".

Definition store := string -> option string.

Definition write (filepath text : string) (st : store) : store :=
  fun p => if String.eqb p filepath then Some text else st p.

(** The text sink in the words of the specification, a function on
    stores: the file at [filepath] holds the joined lines, whatever it
    held before, and the other files are as they were.  It cannot fail:
    it says which files there are after a call that returned, and is what
    the calls of the source are compared with. *)
Definition text_sink_spec (lines : list string) (filepath : string) (st : store)
    : store :=
  write filepath (String.concat newline lines) st.

(** [str.split] with the separator [newline]. *)
Fixpoint split_newline (s : string) : list string :=
  match s with
  | EmptyString => [""]
  | String c s' =>
      if Ascii.eqb c "010"%char then "" :: split_newline s'
      else match split_newline s' with
           | h :: t => String c h :: t
           | [] => [String c ""]
           end
  end.

(** ** A finite directory tree as a filesystem *)

#[local] Set Warnings "-register-all".

Inductive node : Type :=
| File
| Dir (entries : list (string * node))
| Locked      (* a directory that may not be listed *)
| Special     (* neither a file nor a directory: socket, fifo, device *)
| Broken      (* a symbolic link whose target does not exist *)
| Denied.     (* an entry whose status may not be read, as the entries of a
                 directory that may be read but not searched: whatever it
                 is, a directory included, it is not recognised and it
                 cannot be listed *)

Inductive oserror : Type :=
| FileNotFoundError (filename : list string)
| NotADirectoryError (filename : list string)
| PermissionError (filename : list string).

Fixpoint lookup (name : string) (entries : list (string * node)) : option node :=
  match entries with
  | [] => None
  | (n, c) :: rest => if String.eqb name n then Some c else lookup name rest
  end.

Definition step (cur : option node) (name : string) : option node :=
  match cur with
  | Some (Dir entries) => lookup name entries
  | _ => None
  end.

(** The node a path (a list of names, from the root) leads to. *)
Definition resolve (root : node) (p : list string) : option node :=
  fold_left step p (Some root).

Section TreeFS.

Variable root : node.

(** [os.listdir]: the names in a directory, in the order they are stored;
    the error of the operating system for anything else. *)
Definition t_listdir (p : list string) : oserror + list string :=
  match resolve root p with
  | Some (Dir entries) => inr (map fst entries)
  | Some Locked | Some Denied => inl (PermissionError p)
  | Some File | Some Special => inl (NotADirectoryError p)
  | Some Broken | None => inl (FileNotFoundError p)
  end.

(** [os.path.isfile] and [os.path.isdir] read the status of the path and
    answer [False] when it cannot be read; they do not raise. *)
Definition t_isfile (p : list string) : bool :=
  match resolve root p with
  | Some File => true
  | _ => false
  end.

Definition t_isdir (p : list string) : bool :=
  match resolve root p with
  | Some (Dir _) | Some Locked => true
  | _ => false
  end.

Definition t_join (p : list string) (name : string) : list string := p ++ [name].

Definition render (fuel : nat) (p : list string) (prefix : string)
    : outcome oserror (list string) :=
  print_directory_tree t_listdir t_isfile t_isdir t_join fuel p prefix.

End TreeFS.

(** The nesting depth of a tree. *)
Fixpoint height (n : node) : nat :=
  match n with
  | Dir entries => S (list_max (map (fun e => height (snd e)) entries))
  | _ => 0
  end.

(** Every directory of the tree that [os.path.isdir] accepts may be
    listed. *)
Fixpoint listable (n : node) : bool :=
  match n with
  | Dir entries => forallb (fun e => listable (snd e)) entries
  | Locked => false
  | File | Special | Broken | Denied => true
  end.

Fixpoint nodupb (names : list string) : bool :=
  match names with
  | [] => true
  | name :: rest => negb (existsb (String.eqb name) rest) && nodupb rest
  end.

(** No directory of the tree holds two entries of the same name. *)
Fixpoint wfb (n : node) : bool :=
  match n with
  | Dir entries => nodupb (map fst entries) && forallb (fun e => wfb (snd e)) entries
  | _ => true
  end.

(** An entry that one of [os.path.isfile] and [os.path.isdir] accepts. *)
Definition is_entry (root : node) (q : list string) : bool :=
  t_isfile root q || t_isdir root q.

(** [below root p q]: [q] is such an entry strictly below the path [p]. *)
Definition below (root : node) (p q : list string) : Prop :=
  (exists name rest, q = p ++ name :: rest) /\ is_entry root q = true.

(** [starts p name q]: the path [q] passes through the entry [name] of [p]. *)
Definition starts (p : list string) (name : string) (q : list string) : Prop :=
  exists rest, q = p ++ name :: rest.

(** [has_newline s]: the string holds a newline character. *)
Fixpoint has_newline (s : string) : bool :=
  match s with
  | EmptyString => false
  | String c s' => Ascii.eqb c "010"%char || has_newline s'
  end.

Definition no_files : store := fun _ => None.

(** A chain of [k] nested directories ending in a directory with one file. *)
Fixpoint chain (k : nat) : node :=
  match k with
  | O => Dir [("leaf", File)]
  | S k' => Dir [("d", chain k')]
  end.

Definition demo : node :=
  Dir [ ("f.txt", File);
        ("sub", Dir [("b.txt", File); ("a.txt", File); ("in", Dir [("x", File)])]);
        ("Zed", Dir [("k", File)]);
        ("zz", Special) ].

Definition demo_lines : list string :=
  ["|-- Zed/"; "|   `-- k"; "`-- sub/"; "    `-- in/"; "        `-- x";
   "    |-- a.txt"; "    `-- b.txt"; "`-- f.txt"].

Definition only_files : node := Dir [("b.txt", File); ("a.txt", File)].

Definition with_locked : node :=
  Dir [("a", Dir [("x", File)]); ("secret", Locked); ("z.txt", File)].

Definition with_dangling : node :=
  Dir [("a.txt", File); ("dangling", Broken)].


(** ** Further vocabulary

    [outcome_map f r] applies [f] to the value a call returns. *)
Definition outcome_map {E A B} (f : A -> B) (r : outcome E A) : outcome E B :=
  match r with
  | Return a => Return (f a)
  | Raise e => Raise e
  | OutOfFuel => OutOfFuel
  end.

(** Two listings of one directory agree up to the order of the names:
    both raise the same error, or both return, the names of one being a
    rearrangement of the names of the other. *)
Definition same_names {E} (r r0 : E + list string) : Prop :=
  match r, r0 with
  | inr names, inr names0 => Permutation names names0
  | inl e, inl e0 => e = e0
  | _, _ => False
  end.

(** The second listing is the first without the names [keep] rejects. *)
Definition names_kept {E} (keep : string -> bool) (r r0 : E + list string) : Prop :=
  match r, r0 with
  | inr names, inr names0 => names0 = filter keep names
  | inl e, inl e0 => e = e0
  | _, _ => False
  end.

(** A filesystem of one directory, listed in two orders. *)
Definition two_files (order : bool) (d : list string) : oserror + list string :=
  match d with
  | [] => inr (if order then ["b.txt"; "a.txt"] else ["a.txt"; "b.txt"])
  | _ => inl (NotADirectoryError d)
  end.

(** The same directory, listed with and without a name that is neither a
    file nor a directory. *)
Definition with_pipe (listed : bool) (d : list string) : oserror + list string :=
  match d with
  | [] => inr (if listed then ["fifo"; "a.txt"] else ["a.txt"])
  | _ => inl (NotADirectoryError d)
  end.

Definition is_txt (p : list string) : bool :=
  match p with
  | [name] => String.eqb name "a.txt" || String.eqb name "b.txt"
  | _ => false
  end.


(** ** The sinks and [main], as programs that call the outside world

    [save_to_pdf], [save_to_text_file] and [main] act through calls to the
    standard library and to [fpdf]: printing, prompting, creating a
    directory, opening and writing a file, building a document, opening
    a browser.  A program is the tree of the calls it makes; each call
    returns a value or raises, as the world decides, and the program goes
    on from there. *)

(** The members of [fpdf]'s enumerations [XPos] and [YPos]. *)
Inductive XPos : Type :=
  LEFT | RIGHT | START | END | WCONT | CENTER | LMARGIN | RMARGIN.

Inductive YPos : Type := TOP | LAST | NEXT | TMARGIN | BMARGIN.

Section World.

Variable path : Type.
Variable exn : Type.

(** The calls of [src/pps.py] to the outside. *)
Inductive call : Type :=
| Path_cwd
| Path_home
| print_ (text : string)
| input_ (prompt : string)
| Path_mkdir (p : path) (parents exist_ok : bool)
| open_ (file : path) (mode encoding : string)
| f_write (text : string)
| f_close
| FPDF
| pdf_add_page
| pdf_set_auto_page_break (auto : bool) (margin : Z)
| pdf_set_font (family : string) (size : Z)
| pdf_cell (w h : Z) (text : string) (new_x : XPos) (new_y : YPos)
| pdf_output (name : path)
| webbrowser_open (url : path).

(** What a call returns. *)
Definition resp (c : call) : Type :=
  match c with
  | Path_cwd | Path_home => path
  | input_ _ => string
  | f_write _ => Z
  | pdf_cell _ _ _ _ _ | webbrowser_open _ => bool
  | _ => unit
  end.

Inductive prog (R : Type) : Type :=
| Ret (r : R)
| Throw (e : exn)
| Stuck      (* the renderer exhausted the depth of recursion allowed *)
| Call (c : call) (k : exn + resp c -> prog R).

Arguments Ret {R} r.
Arguments Throw {R} e.
Arguments Stuck {R}.
Arguments Call {R} c k.

Fixpoint pbind {A B} (p : prog A) (f : A -> prog B) : prog B :=
  match p with
  | Ret a => f a
  | Throw e => Throw e
  | Stuck => Stuck
  | Call c k => Call c (fun r => pbind (k r) f)
  end.

(** A call whose exception, if any, propagates. *)
Definition perform (c : call) : prog (resp c) :=
  Call c (fun r => match r with inl e => Throw e | inr v => Ret v end).

(** The outcome of the renderer, inside a program. *)
Definition lift {A} (r : outcome exn A) : prog A :=
  match r with
  | Return a => Ret a
  | Raise e => Throw e
  | OutOfFuel => Stuck
  end.

(** [for x in l: body x]. *)
Fixpoint for_each {A} (l : list A) (body : A -> prog unit) : prog unit :=
  match l with
  | [] => Ret tt
  | x :: l' => pbind (body x) (fun _ => for_each l' body)
  end.

(** [try: body except Exception as e: handler e]; [is_Exception] tells the
    exceptions that derive from [Exception]. *)
Fixpoint try_except (is_Exception : exn -> bool) {A} (body : prog A)
    (handler : exn -> prog A) : prog A :=
  match body with
  | Ret a => Ret a
  | Throw e => if is_Exception e then handler e else Throw e
  | Stuck => Stuck
  | Call c k => Call c (fun r => try_except is_Exception (k r) handler)
  end.

(** The body of [with open(...) as f:]: the file is closed when the body
    is left, normally or by an exception; an exception of the closing
    replaces the one of the body. *)
Fixpoint closing {A} (body : prog A) : prog A :=
  match body with
  | Ret a =>
      Call f_close (fun r => match r with inl e => Throw e | inr _ => Ret a end)
  | Throw e =>
      Call f_close (fun r => match r with inl e' => Throw e' | inr _ => Throw e end)
  | Stuck => Stuck
  | Call c k => Call c (fun r => closing (k r))
  end.

Definition with_open {A} (file : path) (mode encoding : string) (body : prog A)
    : prog A :=
  pbind (perform (open_ file mode encoding)) (fun _ => closing body).

(** *** Runs

    The values returned are logged untyped; an entry of the log is a call
    with the value it returned or the exception it raised. *)
Inductive value : Type :=
| VNone
| VStr (s : string)
| VPath (p : path)
| VBool (b : bool)
| VInt (z : Z).

Definition to_value (c : call) : resp c -> value :=
  match c as c0 return resp c0 -> value with
  | Path_cwd | Path_home => fun v => VPath v
  | input_ _ => fun v => VStr v
  | f_write _ => fun v => VInt v
  | pdf_cell _ _ _ _ _ | webbrowser_open _ => fun v => VBool v
  | _ => fun _ => VNone
  end.

Inductive entry : Type :=
| Returned (c : call) (v : value)
| Raised (c : call) (e : exn).

Definition call_of (en : entry) : call :=
  match en with Returned c _ | Raised c _ => c end.

Definition returned (en : entry) : bool :=
  match en with Returned _ _ => true | Raised _ _ => false end.

(** The world: what a call returns or raises, given the log so far. *)
Definition oracle : Type := list entry -> forall c : call, exn + resp c.

(** [exec o history p] runs [p] in the world [o] and gives the log, which
    extends [history], and the outcome. *)
Fixpoint exec {R} (o : oracle) (history : list entry) (p : prog R)
    : list entry * outcome exn R :=
  match p with
  | Ret r => (history, Return r)
  | Throw e => (history, Raise e)
  | Stuck => (history, OutOfFuel)
  | Call c k =>
      match o history c with
      | inl e => exec o (history ++ [Raised c e]) (k (inl e))
      | inr v => exec o (history ++ [Returned c (to_value c v)]) (k (inr v))
      end
  end.

(** *** The two sinks *)

Definition save_to_pdf (lines : list string) (filepath : path) : prog unit :=
  pbind (perform FPDF) (fun _ =>
  pbind (perform pdf_add_page) (fun _ =>
  pbind (perform (pdf_set_auto_page_break true 15)) (fun _ =>
  pbind (perform (pdf_set_font "Arial" 12)) (fun _ =>
  pbind (for_each lines (fun line =>
           pbind (perform (pdf_cell 0 10 line LMARGIN NEXT)) (fun _ => Ret tt)))
        (fun _ =>
  perform (pdf_output filepath)))))).

(** [save_to_text_file], with the calls it makes. *)
Definition save_to_text_file_calls (lines : list string) (filepath : path)
    : prog unit :=
  with_open filepath "w" "utf-8"
    (pbind (perform (f_write (String.concat newline lines))) (fun _ => Ret tt)).

(** *** [main] *)

Variable listdir : path -> exn + list string.
Variable isfile : path -> bool.
Variable isdir : path -> bool.
Variable join : path -> string -> path.

(** [Path.name], the operator [/] of [Path], [str] of a path and of an
    exception, the test [isinstance(e, Exception)], [str.strip] and
    [str.lower]. *)
Variable name : path -> string.
Variable div : path -> string -> path.
Variable path_str : path -> string.
Variable exn_str : exn -> string.
Variable is_Exception : exn -> bool.
Variable strip : string -> string.
Variable lower : string -> string.

Definition header (project_name : string) : string :=
  "Project Structure for '" +++ project_name +++ "':" +++ newline.

Definition save_prompt : string :=
  newline
  +++ "Do you want to save this structure to (P)DF, (T)ext, or (C)ancel? [P/T/C]: ".

Definition open_prompt : string := "Do you want to open the file? [Y/N]: ".

Definition save_error (e : exn) : string :=
  "An error occurred while saving the file: " +++ exn_str e.

Definition saved_message (file_path : path) : string :=
  newline +++ "File saved successfully at: " +++ path_str file_path.

(** The body of [main]; [fuel] is the depth of recursion the renderer is
    allowed.
    The [return] of the [except] branch is the [false] that the guarded
    block gives. *)
Definition main (fuel : nat) : prog unit :=
  pbind (perform Path_cwd) (fun root_directory =>
  let project_name := name root_directory in
  pbind (perform (print_ (header project_name))) (fun _ =>
  pbind (lift (print_directory_tree listdir isfile isdir join fuel
                                    root_directory "")) (fun tree_lines =>
  pbind (perform (print_ (String.concat newline tree_lines))) (fun _ =>
  pbind (perform (input_ save_prompt)) (fun answer =>
  let choice := lower (strip answer) in
  if negb (existsb (String.eqb choice) ["p"; "t"]) then
    pbind (perform (print_ "Operation canceled.")) (fun _ => Ret tt)
  else
    pbind (perform Path_home) (fun home =>
    let documents_dir := div (div home "Documents") "pps" in
    pbind (perform (Path_mkdir documents_dir true true)) (fun _ =>
    let file_extension := if String.eqb choice "p" then "pdf" else "txt" in
    let file_path := div documents_dir (project_name +++ "." +++ file_extension) in
    pbind (try_except is_Exception
             (pbind (if String.eqb choice "p" then save_to_pdf tree_lines file_path
                     else if String.eqb choice "t"
                          then save_to_text_file_calls tree_lines file_path
                          else Ret tt)
                    (fun _ => Ret true))
             (fun e => pbind (perform (print_ (save_error e)))
                             (fun _ => Ret false)))
          (fun saved =>
    if saved : bool then
      pbind (perform (print_ (saved_message file_path))) (fun _ =>
      pbind (perform (input_ open_prompt)) (fun answer2 =>
      let open_choice := lower (strip answer2) in
      if String.eqb open_choice "y"
      then pbind (perform (webbrowser_open file_path)) (fun _ => Ret tt)
      else Ret tt))
    else Ret tt)))))))).

End World.

Arguments Path_cwd {path}.
Arguments Path_home {path}.
Arguments print_ {path} text.
Arguments input_ {path} prompt.
Arguments f_write {path} text.
Arguments f_close {path}.
Arguments FPDF {path}.
Arguments pdf_add_page {path}.
Arguments pdf_set_auto_page_break {path} auto margin.
Arguments pdf_set_font {path} family size.
Arguments pdf_cell {path} w h text new_x new_y.
Arguments Ret {path exn R} r.
Arguments Throw {path exn R} e.
Arguments Stuck {path exn R}.
Arguments Call {path exn R} c k.
Arguments VNone {path}.
Arguments VStr {path} s.
Arguments VBool {path} b.
Arguments VInt {path} z.
Arguments Returned {path exn} c v.
Arguments Raised {path exn} c e.
Arguments perform {path exn} c.
Arguments lift {path exn A} r.
Arguments save_to_pdf {path exn} lines filepath.
Arguments save_to_text_file_calls {path exn} lines filepath.


(** *** Vocabulary for runs *)

(** The calls [save_to_pdf] makes when none raises. *)
Definition pdf_calls {path} (lines : list string) (filepath : path)
    : list (call path) :=
  [FPDF; pdf_add_page; pdf_set_auto_page_break true 15; pdf_set_font "Arial" 12]
  ++ map (fun line => pdf_cell 0 10 line LMARGIN NEXT) lines
  ++ [pdf_output filepath].

(** [follows cs ev r]: the entries [ev] of a run with outcome [r] go
    through the calls [cs] in order: all of them, each returning, when
    the run returns; up to the first one that raises, whose exception is
    the one of the run, when it raises. *)
Definition follows {path exn R} (cs : list (call path))
    (ev : list (entry path exn)) (r : outcome exn R) : Prop :=
  match r with
  | Return _ => map (@call_of path exn) ev = cs /\ forallb (@returned path exn) ev = true
  | Raise e =>
      exists done c rest,
        ev = done ++ [Raised c e] /\
        forallb (@returned path exn) done = true /\
        cs = map (@call_of path exn) done ++ c :: rest
  | OutOfFuel => False
  end.

(** [straight p cs]: in every world, [p] follows the calls [cs]. *)
Definition straight {path exn R} (p : prog path exn R) (cs : list (call path))
    : Prop :=
  forall (o : oracle path exn) history,
  exists ev,
    fst (exec o history p) = history ++ ev /\
    follows cs ev (snd (exec o history p)).

(** The calls that write a file or build a document. *)
Definition is_save_call {path} (c : call path) : bool :=
  match c with
  | open_ _ _ _ | f_write _ | f_close | FPDF | pdf_add_page
  | pdf_set_auto_page_break _ _ | pdf_set_font _ _ | pdf_cell _ _ _ _ _
  | pdf_output _ => true
  | _ => false
  end.

(** The effect of the file calls that returned on a store of text files:
    opening in mode [w] empties the file, writing appends to the file
    that is open. *)
Definition file_step {exn} (s : store * option string) (en : entry string exn)
    : store * option string :=
  match en with
  | Returned (open_ file mode _) _ =>
      if String.eqb mode "w" then (write file "" (fst s), Some file)
      else (fst s, Some file)
  | Returned (f_write text) _ =>
      match snd s with
      | Some file =>
          (write file (match fst s file with
                       | Some old => old +++ text
                       | None => text
                       end) (fst s), snd s)
      | None => s
      end
  | Returned f_close _ => (fst s, None)
  | _ => s
  end.

Definition file_effect {exn} (ev : list (entry string exn)) (st : store) : store :=
  fst (fold_left file_step ev (st, None)).


(** *** The runs of [main]

    [main_run fuel trace r] lists the ways a run of [main] can end, with
    the log and the outcome of each. *)

Section MainRuns.

Variable path : Type.
Variable exn : Type.
Variable listdir : path -> exn + list string.
Variable isfile : path -> bool.
Variable isdir : path -> bool.
Variable join : path -> string -> path.
Variable name : path -> string.
Variable div : path -> string -> path.
Variable path_str : path -> string.
Variable exn_str : exn -> string.
Variable is_Exception : exn -> bool.
Variable strip : string -> string.
Variable lower : string -> string.

(** The outcome of a program that ends with the call of the entry. *)
Definition result_of (en : entry path exn) : outcome exn unit :=
  match en with
  | Returned _ _ => Return tt
  | Raised _ e => Raise e
  end.

Definition text_run (lines : list string) (filepath : path)
    (ev : list (entry path exn)) (r : outcome exn unit) : Prop :=
  (exists e, ev = [Raised (open_ filepath "w" "utf-8") e] /\ r = Raise e) \/
  (exists w c,
      ev = [Returned (open_ filepath "w" "utf-8") VNone; w; c] /\
      call_of w = f_write (String.concat newline lines) /\
      call_of c = f_close /\
      r = match c, w with
          | Raised _ e, _ => Raise e
          | Returned _ _, Raised _ e => Raise e
          | Returned _ _, Returned _ _ => Return tt
          end).

Definition save_run (choice : string) (lines : list string) (filepath : path)
    (ev : list (entry path exn)) (r : outcome exn unit) : Prop :=
  (choice = "p" /\ follows (pdf_calls lines filepath) ev r) \/
  (choice = "t" /\ text_run lines filepath ev r).

Definition documents_dir (home : path) : path := div (div home "Documents") "pps".

Definition file_path (root home : path) (choice : string) : path :=
  div (documents_dir home)
      (name root +++ "." +++ (if String.eqb choice "p" then "pdf" else "txt")).

Definition until_render (root : path) : list (entry path exn) :=
  [Returned Path_cwd (VPath root); Returned (print_ (header (name root))) VNone].

Definition until_choice (root : path) (lines : list string) (answer : string)
    : list (entry path exn) :=
  until_render root
  ++ [Returned (print_ (String.concat newline lines)) VNone;
      Returned (input_ save_prompt) (VStr answer)].

Definition until_save (root : path) (lines : list string) (answer : string)
    (home : path) : list (entry path exn) :=
  until_choice root lines answer
  ++ [Returned Path_home (VPath home);
      Returned (Path_mkdir (documents_dir home) true true) VNone].

Definition rendered (fuel : nat) (root : path) : outcome exn (list string) :=
  print_directory_tree listdir isfile isdir join fuel root "".

Definition wants_save (answer : string) : Prop :=
  lower (strip answer) = "p" \/ lower (strip answer) = "t".

Inductive main_run (fuel : nat)
  : list (entry path exn) -> outcome exn unit -> Prop :=
| run_cwd_raised e :
    main_run fuel [Raised Path_cwd e] (Raise e)
| run_header_raised root e :
    main_run fuel
      [Returned Path_cwd (VPath root); Raised (print_ (header (name root))) e]
      (Raise e)
| run_render_raised root e :
    rendered fuel root = Raise e ->
    main_run fuel (until_render root) (Raise e)
| run_render_exhausted root :
    rendered fuel root = OutOfFuel ->
    main_run fuel (until_render root) OutOfFuel
| run_listing_raised root lines e :
    rendered fuel root = Return lines ->
    main_run fuel
      (until_render root ++ [Raised (print_ (String.concat newline lines)) e])
      (Raise e)
| run_prompt_raised root lines e :
    rendered fuel root = Return lines ->
    main_run fuel
      (until_render root
       ++ [Returned (print_ (String.concat newline lines)) VNone;
           Raised (input_ save_prompt) e])
      (Raise e)
| run_cancelled root lines answer en :
    rendered fuel root = Return lines ->
    ~ wants_save answer ->
    call_of en = print_ "Operation canceled." ->
    main_run fuel (until_choice root lines answer ++ [en]) (result_of en)
| run_home_raised root lines answer e :
    rendered fuel root = Return lines ->
    wants_save answer ->
    main_run fuel (until_choice root lines answer ++ [Raised Path_home e])
             (Raise e)
| run_mkdir_raised root lines answer home e :
    rendered fuel root = Return lines ->
    wants_save answer ->
    main_run fuel
      (until_choice root lines answer
       ++ [Returned Path_home (VPath home);
           Raised (Path_mkdir (documents_dir home) true true) e])
      (Raise e)
| run_save_escaped root lines answer home ev e :
    rendered fuel root = Return lines ->
    wants_save answer ->
    save_run (lower (strip answer)) lines
             (file_path root home (lower (strip answer))) ev (Raise e) ->
    is_Exception e = false ->
    main_run fuel (until_save root lines answer home ++ ev) (Raise e)
| run_save_reported root lines answer home ev e en :
    rendered fuel root = Return lines ->
    wants_save answer ->
    save_run (lower (strip answer)) lines
             (file_path root home (lower (strip answer))) ev (Raise e) ->
    is_Exception e = true ->
    call_of en = print_ (save_error exn_str e) ->
    main_run fuel (until_save root lines answer home ++ ev ++ [en])
             (result_of en)
| run_saved_message_raised root lines answer home ev e :
    rendered fuel root = Return lines ->
    wants_save answer ->
    save_run (lower (strip answer)) lines
             (file_path root home (lower (strip answer))) ev (Return tt) ->
    main_run fuel
      (until_save root lines answer home ++ ev
       ++ [Raised (print_ (saved_message path_str
                             (file_path root home (lower (strip answer))))) e])
      (Raise e)
| run_open_prompt_raised root lines answer home ev e :
    rendered fuel root = Return lines ->
    wants_save answer ->
    save_run (lower (strip answer)) lines
             (file_path root home (lower (strip answer))) ev (Return tt) ->
    main_run fuel
      (until_save root lines answer home ++ ev
       ++ [Returned (print_ (saved_message path_str
                               (file_path root home (lower (strip answer)))))
                    VNone;
           Raised (input_ open_prompt) e])
      (Raise e)
| run_not_opened root lines answer home ev answer2 :
    rendered fuel root = Return lines ->
    wants_save answer ->
    save_run (lower (strip answer)) lines
             (file_path root home (lower (strip answer))) ev (Return tt) ->
    lower (strip answer2) <> "y" ->
    main_run fuel
      (until_save root lines answer home ++ ev
       ++ [Returned (print_ (saved_message path_str
                               (file_path root home (lower (strip answer)))))
                    VNone;
           Returned (input_ open_prompt) (VStr answer2)])
      (Return tt)
| run_opened root lines answer home ev answer2 en :
    rendered fuel root = Return lines ->
    wants_save answer ->
    save_run (lower (strip answer)) lines
             (file_path root home (lower (strip answer))) ev (Return tt) ->
    lower (strip answer2) = "y" ->
    call_of en = webbrowser_open (file_path root home (lower (strip answer))) ->
    main_run fuel
      (until_save root lines answer home ++ ev
       ++ [Returned (print_ (saved_message path_str
                               (file_path root home (lower (strip answer)))))
                    VNone;
           Returned (input_ open_prompt) (VStr answer2);
           en])
      (result_of en).

End MainRuns.


(** *** A world to run [main] in

    The current directory is [cwd] in the tree [fs]; the answers to the
    two prompts are [answer] and [answer2]; the calls that [failing]
    selects raise, the others return. *)

Definition demo_world (cwd : list string) (answer answer2 : string)
    (failing : call (list string) -> bool)
    : oracle (list string) oserror :=
  fun _ c =>
    if failing c then inl (PermissionError [])
    else
      match c as c0 return oserror + resp c0 with
      | Path_cwd => inr cwd
      | Path_home => inr ["home"; "user"]
      | input_ prompt =>
          inr (if String.eqb prompt open_prompt then answer2 else answer)
      | f_write text => inr (Z.of_nat (String.length text))
      | pdf_cell _ _ _ _ _ => inr false
      | webbrowser_open _ => inr true
      | _ => inr tt
      end.

Definition demo_main (fs : node) (fuel : nat) : prog (list string) oserror unit :=
  main (t_listdir fs) (t_isfile fs) (t_isdir fs) t_join
       (fun p => last p "") t_join (String.concat "/") (fun _ => "denied")
       (fun _ => true) (fun s => s) (fun s => s) fuel.

Definition no_failure (c : call (list string)) : bool := false.

Definition mkdir_fails (c : call (list string)) : bool :=
  match c with Path_mkdir _ _ _ => true | _ => false end.

Definition output_fails (c : call (list string)) : bool :=
  match c with pdf_output _ => true | _ => false end.


Definition demo_home : node :=
  Dir [("proj", Dir [("b.txt", File); ("a.txt", File)]); ("secret", Locked)].

Definition in_proj (answer answer2 : string)
    (failing : call (list string) -> bool)
    : list (entry (list string) oserror) * outcome oserror unit :=
  exec (demo_world ["proj"] answer answer2 failing) [] (demo_main demo_home 3).

Definition in_secret : list (entry (list string) oserror) * outcome oserror unit :=
  exec (demo_world ["secret"] "t" "y" no_failure) [] (demo_main demo_home 3).

Definition proj_txt : list string :=
  ["home"; "user"; "Documents"; "pps"; "proj.txt"].

Definition proj_pdf : list string :=
  ["home"; "user"; "Documents"; "pps"; "proj.pdf"].


(** A world whose paths are strings and in which every call returns. *)
Definition text_world : oracle string oserror :=
  fun _ c =>
    match c as c0 return oserror + resp c0 with
    | Path_cwd | Path_home => inr "."
    | input_ _ => inr "n"
    | f_write text => inr (Z.of_nat (String.length text))
    | pdf_cell _ _ _ _ _ | webbrowser_open _ => inr false
    | _ => inr tt
    end.


(** A directory that may be read but not searched, holding a directory:
    the names in it are listed, their status is denied. *)
Definition with_unsearchable : node :=
  Dir [("ro", Dir [("inner", Denied)]); ("z.txt", File)].

(** The depth of recursion the interpreter allows unless it is told
    otherwise ([sys.getrecursionlimit()]); [pps.py] does not change it. *)
Definition recursion_limit : nat := 1000.

(** * Facts *)

Unset Implicit Arguments.

(** ** Strings and lists *)

Lemma append_assoc (a b c : string) : a +++ b +++ c = a +++ (b +++ c).
Proof. induction a as [|ch a IH]; simpl; [reflexivity | now rewrite <- IH]. Qed.

Lemma append_nil_r (a : string) : a +++ "" = a.
Proof. induction a as [|ch a IH]; simpl; [reflexivity | now rewrite IH]. Qed.

Lemma nth_error_enumerate_from {A} (l : list A) (s i : nat) (x : A) :
  nth_error l i = Some x ->
  nth_error (combine (seq s (length l)) l) i = Some (s + i, x).
Proof.
  revert s i; induction l as [|y l IH]; intros s [|i] H; simpl in *; try discriminate.
  - injection H as ->. now rewrite Nat.add_0_r.
  - rewrite (IH (S s) i H). f_equal. f_equal. lia.
Qed.

Lemma nth_error_enumerate {A} (l : list A) (i : nat) (x : A) :
  nth_error l i = Some x -> nth_error (enumerate l) i = Some (i, x).
Proof. intros H. unfold enumerate. now rewrite (nth_error_enumerate_from l 0 i x H). Qed.

Lemma enumerate_snd {A} (l : list A) : map snd (enumerate l) = l.
Proof.
  unfold enumerate. generalize 0. induction l as [|y l IH]; intros s; simpl;
    [reflexivity | now rewrite IH].
Qed.

Lemma In_enumerate {A} (l : list A) (i : nat) (x : A) :
  In (i, x) (enumerate l) -> nth_error l i = Some x.
Proof.
  unfold enumerate. intros H.
  assert (G : forall s, In (i, x) (combine (seq s (length l)) l) ->
                        exists k, i = s + k /\ nth_error l k = Some x).
  { clear H. induction l as [|y l IH]; intros s H; simpl in H; [contradiction|].
    destruct H as [H | H].
    - injection H as <- <-. exists 0. split; [lia | reflexivity].
    - destruct (IH (S s) H) as [k [-> Hk]]. exists (S k). split; [lia | exact Hk]. }
  destruct (G 0 H) as [k [-> Hk]]. exact Hk.
Qed.

(** ** The order [sorted] sorts by *)

Lemma ascii_compare_Lt_trans (x y z : ascii) :
  Ascii.compare x y = Lt -> Ascii.compare y z = Lt -> Ascii.compare x z = Lt.
Proof.
  unfold Ascii.compare. rewrite !N.compare_lt_iff. apply N.lt_trans.
Qed.

Lemma str_le_trans (a b c : string) : str_le a b -> str_le b c -> str_le a c.
Proof.
  unfold str_le, String.leb. revert b c.
  induction a as [|x a IH]; intros [|y b] [|z c]; simpl; try congruence.
  destruct (Ascii.compare x y) eqn:Exy; try congruence;
    destruct (Ascii.compare y z) eqn:Eyz; try congruence.
  - apply Ascii.compare_eq_iff in Exy, Eyz. subst.
    unfold Ascii.compare. rewrite N.compare_refl. apply IH.
  - apply Ascii.compare_eq_iff in Exy. subst. now rewrite Eyz.
  - apply Ascii.compare_eq_iff in Eyz. subst. now rewrite Exy.
  - now rewrite (ascii_compare_Lt_trans _ _ _ Exy Eyz).
Qed.

Lemma sorted_StronglySorted (names : list string) :
  StronglySorted str_le (sorted names).
Proof.
  apply Sorted_StronglySorted.
  - intros a b c. apply str_le_trans.
  - apply StrSort.Sorted_sort.
Qed.

Lemma sorted_Permutation (names : list string) : Permutation names (sorted names).
Proof. apply StrSort.Permuted_sort. Qed.

(** The sorted arrangement of a list is unique, so [sorted] is the list
    Python's [sorted] returns, whatever algorithm computes it. *)
Lemma StronglySorted_unique (l1 l2 : list string) :
  StronglySorted str_le l1 -> StronglySorted str_le l2 -> Permutation l1 l2 ->
  l1 = l2.
Proof.
  intros H1; revert l2. induction H1 as [|a l1 H1 IH Ha]; intros l2 H2 HP.
  - apply Permutation_nil in HP. now subst.
  - destruct H2 as [|b l2 H2 Hb].
    + apply Permutation_sym, Permutation_nil in HP. discriminate.
    + assert (a = b).
      { assert (Hin1 : In a (b :: l2)) by (eapply Permutation_in; [exact HP | now left]).
        assert (Hin2 : In b (a :: l1))
          by (eapply Permutation_in; [apply Permutation_sym, HP | now left]).
        destruct Hin1 as [-> | Hin1]; [reflexivity|].
        destruct Hin2 as [-> | Hin2]; [reflexivity|].
        rewrite Forall_forall in Ha, Hb.
        apply String.leb_antisym; [apply Ha, Hin2 | apply Hb, Hin1]. }
      subst b. f_equal. apply IH; [exact H2|].
      eapply Permutation_cons_inv, HP.
Qed.

Lemma sorted_unique (names l : list string) :
  StronglySorted str_le l -> Permutation names l -> sorted names = l.
Proof.
  intros Hs HP. apply StronglySorted_unique;
    [apply sorted_StronglySorted | exact Hs |].
  eapply Permutation_trans; [apply Permutation_sym, sorted_Permutation | exact HP].
Qed.

Lemma StronglySorted_filter (f : string -> bool) (l : list string) :
  StronglySorted str_le l -> StronglySorted str_le (filter f l).
Proof.
  induction 1 as [|a l Hs IH Ha]; simpl; [constructor|].
  destruct (f a); [|exact IH].
  constructor; [exact IH|].
  rewrite Forall_forall in *. intros x Hx. apply filter_In in Hx. now apply Ha.
Qed.

Lemma Permutation_filter (f : string -> bool) (l1 l2 : list string) :
  Permutation l1 l2 -> Permutation (filter f l1) (filter f l2).
Proof.
  induction 1 as [|x l1 l2 HP IH|x y l|l1 l2 l3 _ IH1 _ IH2]; simpl.
  - constructor.
  - destruct (f x); [now constructor | exact IH].
  - destruct (f x), (f y); try apply Permutation_refl. constructor.
  - eapply Permutation_trans; eassumption.
Qed.

(** ** The two loops, and the shape of what the renderer returns *)

Section RenderFacts.

Variable path : Type.
Variable OSError : Type.
Variable listdir : path -> OSError + list string.
Variable isfile : path -> bool.
Variable isdir : path -> bool.
Variable join : path -> string -> path.

Implicit Types rec : path -> string -> outcome OSError (list string).
Implicit Types trec : path -> string -> outcome OSError (list (path * string)).

Abbreviation print := (print_directory_tree listdir isfile isdir join).
Abbreviation files_in := (files_of isfile join).
Abbreviation dirs_in := (dirs_of isdir join).
Abbreviation walks := (descends listdir isdir join).
Abbreviation line_in := (entry_line listdir isfile isdir join).

Lemma files_loop_eq prefix files todo output_lines :
  files_loop prefix files todo output_lines
  = output_lines ++ map (file_line prefix (length files)) todo.
Proof.
  revert output_lines; induction todo as [|[i file] todo IH]; intros acc; simpl.
  - now rewrite app_nil_r.
  - rewrite IH, <- app_assoc. reflexivity.
Qed.

Lemma dirs_loop_Return rec directory prefix dirs todo output_lines out :
  dirs_loop join rec directory prefix dirs todo output_lines = Return out ->
  exists subs,
    returns_all join rec directory prefix (length dirs) todo subs /\
    out = output_lines
          ++ concat (map (block prefix (length dirs)) (combine todo subs)).
Proof.
  revert output_lines; induction todo as [|[i subdir] todo IH]; intros acc H;
    simpl in H.
  - injection H as <-. exists []. split; [constructor | now rewrite app_nil_r].
  - destruct (rec _ _) as [sub| |] eqn:Hrec; simpl in H; try discriminate.
    destruct (IH _ H) as [subs [Hall ->]].
    exists (sub :: subs). split.
    + constructor; [exact Hrec | exact Hall].
    + simpl. unfold block at 2, dir_line. simpl.
      rewrite <- !app_assoc. reflexivity.
Qed.

Lemma dirs_loop_complete rec directory prefix dirs todo subs output_lines :
  returns_all join rec directory prefix (length dirs) todo subs ->
  dirs_loop join rec directory prefix dirs todo output_lines
  = Return (output_lines
            ++ concat (map (block prefix (length dirs)) (combine todo subs))).
Proof.
  intros Hall; revert output_lines.
  induction Hall as [|[i subdir] sub todo subs Hrec Hall IH]; intros acc; simpl.
  - now rewrite app_nil_r.
  - unfold child_prefix, segment, last_index in Hrec. simpl in Hrec.
    rewrite Hrec. simpl. rewrite IH. unfold block at 2, dir_line. simpl.
    rewrite <- !app_assoc. reflexivity.
Qed.

(** The loop raises exactly when the recursive call raises on some item
    after returning on all the items before it. *)
Lemma dirs_loop_Raise rec directory prefix dirs todo output_lines e :
  dirs_loop join rec directory prefix dirs todo output_lines = Raise e ->
  exists done item rest subs,
    todo = done ++ item :: rest /\
    returns_all join rec directory prefix (length dirs) done subs /\
    rec (join directory (snd item))
        (child_prefix prefix (length dirs) (fst item)) = Raise e.
Proof.
  revert output_lines; induction todo as [|[i subdir] todo IH]; intros acc H;
    simpl in H; [discriminate|].
  destruct (rec _ _) as [sub|e'|] eqn:Hrec; simpl in H; try discriminate.
  - destruct (IH _ H) as (done & item & rest & subs & -> & Hall & Hr).
    exists ((i, subdir) :: done), item, rest, (sub :: subs).
    repeat split; [constructor; assumption | exact Hr].
  - injection H as ->. exists [], (i, subdir), todo, [].
    repeat split; [constructor | exact Hrec].
Qed.

(** The loop stays within the budget when every recursive call does. *)
Lemma dirs_loop_fuel rec directory prefix dirs todo output_lines :
  (forall item prefix', In item todo ->
     rec (join directory (snd item)) prefix' <> OutOfFuel) ->
  dirs_loop join rec directory prefix dirs todo output_lines <> OutOfFuel.
Proof.
  revert output_lines; induction todo as [|[i subdir] todo IH]; intros acc H;
    simpl; [discriminate|].
  destruct (rec _ _) as [sub|e'|] eqn:Hrec; simpl.
  - apply IH. intros item prefix' Hin. apply H. now right.
  - discriminate.
  - exfalso. eapply (H (i, subdir)); [now left | exact Hrec].
Qed.

(** A larger budget does not change a result already obtained. *)
Lemma dirs_loop_mono rec rec0 directory prefix dirs todo output_lines r :
  (forall d p r', rec d p = r' -> r' <> OutOfFuel -> rec0 d p = r') ->
  dirs_loop join rec directory prefix dirs todo output_lines = r ->
  r <> OutOfFuel ->
  dirs_loop join rec0 directory prefix dirs todo output_lines = r.
Proof.
  intros Hrec; revert output_lines.
  induction todo as [|[i subdir] todo IH]; intros acc H Hr; simpl in *;
    [exact H|].
  destruct (rec _ _) as [sub|e'|] eqn:E; simpl in H.
  - rewrite (Hrec _ _ _ E) by discriminate. simpl. now apply IH.
  - rewrite (Hrec _ _ _ E) by discriminate. exact H.
  - congruence.
Qed.

Lemma print_mono fuel directory prefix r :
  print fuel directory prefix = r -> r <> OutOfFuel ->
  print (S fuel) directory prefix = r.
Proof.
  revert directory prefix r; induction fuel as [|fuel IH];
    intros d prefix r H Hr; [simpl in H; congruence|].
  change (print (S (S fuel)) d prefix) with
    (match listdir d with
     | inl e => Raise e
     | inr names =>
         output_lines <- dirs_loop join (print (S fuel)) d prefix
                           (dirs_in d names) (enumerate (dirs_in d names)) [] ;;
         Return (files_loop prefix (files_in d names)
                            (enumerate (files_in d names)) output_lines)
     end).
  change (print (S fuel) d prefix) with
    (match listdir d with
     | inl e => Raise e
     | inr names =>
         output_lines <- dirs_loop join (print fuel) d prefix
                           (dirs_in d names) (enumerate (dirs_in d names)) [] ;;
         Return (files_loop prefix (files_in d names)
                            (enumerate (files_in d names)) output_lines)
     end) in H.
  destruct (listdir d) as [e|names]; [exact H|].
  destruct (dirs_loop join (print fuel) _ _ _ _ _) as [out|e|] eqn:E;
    simpl in H; [| |congruence].
  - rewrite (dirs_loop_mono (print fuel) (print (S fuel)) _ _ _ _ _ _ IH E)
      by discriminate. exact H.
  - rewrite (dirs_loop_mono (print fuel) (print (S fuel)) _ _ _ _ _ _ IH E)
      by discriminate. exact H.
Qed.

Lemma print_mono_le fuel fuel' directory prefix r :
  fuel <= fuel' -> print fuel directory prefix = r -> r <> OutOfFuel ->
  print fuel' directory prefix = r.
Proof.
  induction 1 as [|fuel' Hle IH]; intros H Hr; [exact H|].
  apply print_mono; [now apply IH | exact Hr].
Qed.

Lemma print_S fuel d prefix :
  print (S fuel) d prefix
  = match listdir d with
    | inl e => Raise e
    | inr names =>
        output_lines <- dirs_loop join (print fuel) d prefix
                          (dirs_in d names) (enumerate (dirs_in d names)) [] ;;
        Return (files_loop prefix (files_in d names)
                           (enumerate (files_in d names)) output_lines)
    end.
Proof. reflexivity. Qed.

(** What a returning call returns: the blocks of the subdirectories, in
    order, then the lines of the files. *)
Lemma print_shape fuel d prefix lines :
  print (S fuel) d prefix = Return lines ->
  exists names subs,
    listdir d = inr names /\
    returns_all join (print fuel) d prefix (length (dirs_in d names))
                (enumerate (dirs_in d names)) subs /\
    lines = concat (map (block prefix (length (dirs_in d names)))
                        (combine (enumerate (dirs_in d names)) subs))
            ++ map (file_line prefix (length (files_in d names)))
                   (enumerate (files_in d names)).
Proof.
  rewrite print_S. destruct (listdir d) as [e|names]; [discriminate|].
  destruct (dirs_loop _ _ _ _ _ _ _) as [out| |] eqn:E; simpl; try discriminate.
  intros H; injection H as <-.
  destruct (dirs_loop_Return _ _ _ _ _ _ _ E) as [subs [Hall ->]].
  exists names, subs. rewrite files_loop_eq. auto.
Qed.

Lemma print_complete fuel d prefix names subs :
  listdir d = inr names ->
  returns_all join (print fuel) d prefix (length (dirs_in d names))
              (enumerate (dirs_in d names)) subs ->
  print (S fuel) d prefix
  = Return (concat (map (block prefix (length (dirs_in d names)))
                        (combine (enumerate (dirs_in d names)) subs))
            ++ map (file_line prefix (length (files_in d names)))
                   (enumerate (files_in d names))).
Proof.
  intros Hl Hall. rewrite print_S, Hl.
  rewrite (dirs_loop_complete _ _ _ _ _ _ [] Hall). simpl.
  now rewrite files_loop_eq.
Qed.

Lemma returns_all_nth {A} (call : path -> string -> outcome OSError A)
      d prefix n todo subs i item :
  returns_all join call d prefix n todo subs ->
  nth_error todo i = Some item ->
  exists sub,
    call (join d (snd item)) (child_prefix prefix n (fst item)) = Return sub /\
    nth_error (combine todo subs) i = Some (item, sub).
Proof.
  intros Hall; revert i.
  induction Hall as [|x sub todo subs Hx Hall IH]; intros [|i] Hi;
    simpl in *; try discriminate.
  - injection Hi as <-. exists sub. auto.
  - apply IH, Hi.
Qed.

Lemma returns_all_In {A} (call : path -> string -> outcome OSError A)
      d prefix n todo subs item sub :
  returns_all join call d prefix n todo subs ->
  In (item, sub) (combine todo subs) ->
  call (join d (snd item)) (child_prefix prefix n (fst item)) = Return sub /\
  In item todo.
Proof.
  induction 1 as [|x y todo subs Hx Hall IH]; simpl; [contradiction|].
  intros [H | H].
  - injection H as <- <-. auto.
  - destruct (IH H). auto.
Qed.

(** The lines of a block, and the lines of the files, are among the
    lines returned. *)
Lemma block_incl prefix n (bs : list ((nat * string) * list string)) i b rest :
  nth_error bs i = Some b ->
  incl (block prefix n b) (concat (map (block prefix n) bs) ++ rest).
Proof.
  intros Hi line Hin. apply in_or_app; left.
  apply in_concat. exists (block prefix n b). split; [|exact Hin].
  apply in_map, (nth_error_In _ _ Hi).
Qed.

(** The prefix on entering a directory is the starting prefix followed
    by one segment for each directory passed through. *)
Lemma descends_prefix d prefix flags d' prefix' :
  walks d prefix flags d' prefix' ->
  prefix' = prefix +++ String.concat "" (map segment flags).
Proof.
  induction 1 as [d prefix | d prefix names i subdir flags d' prefix' Hl Hn _ IH].
  - simpl. now rewrite append_nil_r.
  - rewrite IH. unfold child_prefix. rewrite append_assoc. f_equal.
    simpl. destruct (map segment flags) eqn:E; simpl.
    + now rewrite append_nil_r.
    + reflexivity.
Qed.

(** A call that returns has returned on every directory it enters. *)
Lemma descends_returns d prefix flags d' prefix' :
  walks d prefix flags d' prefix' ->
  forall fuel lines, print fuel d prefix = Return lines ->
  exists fuel' lines',
    print fuel' d' prefix' = Return lines' /\ incl lines' lines.
Proof.
  induction 1 as [d prefix | d prefix names i subdir flags d' prefix' Hl Hn _ IH];
    intros fuel lines H.
  - exists fuel, lines. split; [exact H | apply incl_refl].
  - destruct fuel as [|fuel]; [discriminate|].
    destruct (print_shape _ _ _ _ H) as (names' & subs & Hl' & Hall & ->).
    rewrite Hl in Hl'. injection Hl' as <-.
    destruct (returns_all_nth _ _ _ _ _ _ _ _ Hall (nth_error_enumerate _ _ _ Hn))
      as (sub & Hsub & Hb).
    destruct (IH _ _ Hsub) as (fuel' & lines' & H' & Hincl).
    exists fuel', lines'. split; [exact H'|].
    intros line Hin. apply (block_incl _ _ _ _ _ _ Hb). right. simpl.
    now apply Hincl.
Qed.

Lemma entry_line_lift d prefix names i subdir is_dir name line :
  listdir d = inr names ->
  nth_error (dirs_in d names) i = Some subdir ->
  line_in (join d subdir) (child_prefix prefix (length (dirs_in d names)) i)
          is_dir name line ->
  line_in d prefix is_dir name line.
Proof.
  intros Hl Hn H.
  destruct H as [flags d' prefix' names' k sd Hw Hl' Hk
                |flags d' prefix' names' k f Hw Hl' Hk].
  - eapply entry_dir; [eapply descends_into; eassumption | exact Hl' | exact Hk].
  - eapply entry_file; [eapply descends_into; eassumption | exact Hl' | exact Hk].
Qed.

(** Every returned line is the line of an entry. *)
Lemma lines_sound fuel :
  forall d prefix lines, print fuel d prefix = Return lines ->
  forall line, In line lines ->
  exists is_dir name, line_in d prefix is_dir name line.
Proof.
  induction fuel as [|fuel IH]; intros d prefix lines H line Hin; [discriminate|].
  destruct (print_shape _ _ _ _ H) as (names & subs & Hl & Hall & ->).
  apply in_app_or in Hin. destruct Hin as [Hin | Hin].
  - apply in_concat in Hin. destruct Hin as (blk & Hblk & Hin).
    apply in_map_iff in Hblk. destruct Hblk as ([[i subdir] sub] & <- & Hb).
    destruct (returns_all_In _ _ _ _ _ _ _ _ Hall Hb) as [Hsub Hitem].
    apply In_enumerate in Hitem. simpl in *.
    destruct Hin as [<- | Hin].
    + exists true, subdir. unfold dir_line. simpl. rewrite (append_assoc _ subdir "/").
      eapply entry_dir; [constructor | exact Hl | exact Hitem].
    + destruct (IH _ _ _ Hsub _ Hin) as (b & name & Hline).
      exists b, name. eapply entry_line_lift; eassumption.
  - apply in_map_iff in Hin. destruct Hin as ([j file] & <- & Hj).
    apply In_enumerate in Hj. exists false, file.
    eapply entry_file; [constructor | exact Hl | exact Hj].
Qed.

(** Every entry of a directory entered has its line among those returned. *)
Lemma lines_complete fuel d prefix lines is_dir name line :
  print fuel d prefix = Return lines ->
  line_in d prefix is_dir name line -> In line lines.
Proof.
  intros H Hline.
  destruct Hline as [flags d' prefix' names i subdir Hw Hl Hi
                    |flags d' prefix' names j file Hw Hl Hj];
    destruct (descends_returns _ _ _ _ _ Hw _ _ H) as (fuel' & lines' & H' & Hincl);
    apply Hincl; (destruct fuel' as [|fuel']; [discriminate|]);
    destruct (print_shape _ _ _ _ H') as (names' & subs & Hl' & Hall & ->);
    rewrite Hl in Hl'; injection Hl' as <-.
  - destruct (returns_all_nth _ _ _ _ _ _ _ _ Hall (nth_error_enumerate _ _ _ Hi))
      as (sub & _ & Hb).
    apply (block_incl _ _ _ _ _ _ Hb). left. unfold dir_line. simpl.
    now rewrite (append_assoc _ subdir "/").
  - apply in_or_app; right. apply in_map_iff. exists (j, file). split.
    + reflexivity.
    + apply nth_error_In with j. now apply nth_error_enumerate.
Qed.

(** *** The lines of the traced traversal are the renderer's *)

Lemma traced_dirs_loop_lines rec trec directory prefix dirs todo out :
  (forall d p, rec d p = lines_of (trec d p)) ->
  dirs_loop join rec directory prefix dirs todo (map snd out)
  = lines_of (traced_dirs_loop join trec directory prefix dirs todo out).
Proof.
  intros Hrec. revert out.
  induction todo as [|[i subdir] todo IH]; intros out; simpl; [reflexivity|].
  rewrite Hrec. destruct (trec _ _) as [sub|e|]; simpl; try reflexivity.
  rewrite <- IH. now rewrite !map_app.
Qed.

Lemma traced_files_loop_lines directory prefix files todo out :
  files_loop prefix files todo (map snd out)
  = map snd (traced_files_loop join directory prefix files todo out).
Proof.
  revert out; induction todo as [|[i file] todo IH]; intros out; simpl;
    [reflexivity|].
  rewrite <- IH. now rewrite map_app.
Qed.

Lemma traced_lines fuel :
  forall d prefix,
    print fuel d prefix = lines_of (traced listdir isfile isdir join fuel d prefix).
Proof.
  induction fuel as [|fuel IH]; intros d prefix; [reflexivity|].
  rewrite print_S. simpl. destruct (listdir d) as [e|names]; [reflexivity|].
  fold (dirs_in d names). fold (files_in d names).
  change (@nil string) with (map snd (@nil (path * string))).
  rewrite (traced_dirs_loop_lines _ _ _ _ _ _ [] IH).
  destruct (traced_dirs_loop _ _ _ _ _ _ _) as [out|e|]; simpl; try reflexivity.
  now rewrite traced_files_loop_lines with (directory := d).
Qed.

Lemma traced_files_loop_eq d prefix files todo out :
  traced_files_loop join d prefix files todo out
  = out ++ map (traced_file join d prefix (length files)) todo.
Proof.
  revert out; induction todo as [|[i file] todo IH]; intros acc; simpl.
  - now rewrite app_nil_r.
  - rewrite IH, <- app_assoc. reflexivity.
Qed.

Lemma traced_dirs_loop_Return trec d prefix dirs todo acc out :
  traced_dirs_loop join trec d prefix dirs todo acc = Return out ->
  exists subs,
    returns_all join trec d prefix (length dirs) todo subs /\
    out = acc ++ concat (map (traced_block join d prefix (length dirs))
                             (combine todo subs)).
Proof.
  revert acc; induction todo as [|[i subdir] todo IH]; intros acc H;
    simpl in H.
  - injection H as <-. exists []. split; [constructor | now rewrite app_nil_r].
  - destruct (trec _ _) as [sub| |] eqn:Hrec; simpl in H; try discriminate.
    destruct (IH _ H) as [subs [Hall ->]].
    exists (sub :: subs). split.
    + constructor; [exact Hrec | exact Hall].
    + simpl. unfold traced_block at 2, dir_line. simpl.
      rewrite <- !app_assoc. reflexivity.
Qed.

Lemma traced_shape fuel d prefix ps :
  traced listdir isfile isdir join (S fuel) d prefix = Return ps ->
  exists names subs,
    listdir d = inr names /\
    returns_all join (traced listdir isfile isdir join fuel) d prefix
                (length (dirs_in d names)) (enumerate (dirs_in d names)) subs /\
    ps = concat (map (traced_block join d prefix (length (dirs_in d names)))
                     (combine (enumerate (dirs_in d names)) subs))
         ++ map (traced_file join d prefix (length (files_in d names)))
                (enumerate (files_in d names)).
Proof.
  simpl. destruct (listdir d) as [e|names]; [discriminate|].
  fold (dirs_in d names). fold (files_in d names).
  destruct (traced_dirs_loop _ _ _ _ _ _ _) as [out| |] eqn:E; simpl;
    try discriminate.
  intros H; injection H as <-.
  destruct (traced_dirs_loop_Return _ _ _ _ _ _ _ E) as [subs [Hall ->]].
  exists names, subs. rewrite traced_files_loop_eq. auto.
Qed.

Lemma in_traced_blocks d prefix n
      (bs : list ((nat * string) * list (path * string))) q :
  In q (map fst (concat (map (traced_block join d prefix n) bs))) <->
  exists b, In b bs /\ (q = join d (snd (fst b)) \/ In q (map fst (snd b))).
Proof.
  induction bs as [|b bs IH]; simpl.
  - split; [contradiction | intros (b & [] & _)].
  - rewrite map_app, in_app_iff, IH. split.
    + intros [H | [H | (b' & Hb' & H)]].
      * exists b. auto.
      * exists b. auto.
      * exists b'. auto.
    + intros (b' & [<- | Hb'] & H).
      * destruct H as [-> | H]; auto.
      * right. right. exists b'. auto.
Qed.

Lemma in_traced_files d prefix m todo q :
  In q (map fst (map (traced_file join d prefix m) todo)) <->
  exists item, In item todo /\ q = join d (snd item).
Proof.
  rewrite map_map, in_map_iff. simpl. split.
  - intros (item & <- & H). exists item. auto.
  - intros (item & H & ->). exists item. auto.
Qed.

(** Every traced line ends with the name of its path, followed by [/]
    when the path is a directory. *)
Lemma traced_pairs fuel :
  forall d prefix ps,
    traced listdir isfile isdir join fuel d prefix = Return ps ->
    forall q line, In (q, line) ps ->
    exists parent name indent,
      q = join parent name /\
      ((isdir q = true /\ line = indent +++ name +++ "/") \/
       (isfile q = true /\ line = indent +++ name)).
Proof.
  induction fuel as [|fuel IH]; intros d prefix ps H q line Hin; [discriminate|].
  destruct (traced_shape _ _ _ _ H) as (names & subs & Hl & Hall & ->).
  apply in_app_or in Hin. destruct Hin as [Hin | Hin].
  - apply in_concat in Hin. destruct Hin as (blk & Hblk & Hin).
    apply in_map_iff in Hblk. destruct Hblk as ([[i subdir] sub] & <- & Hb).
    destruct (returns_all_In _ _ _ _ _ _ _ _ Hall Hb) as [Hsub Hitem].
    apply In_enumerate, nth_error_In in Hitem. simpl in *.
    destruct Hin as [Hin | Hin].
    + injection Hin as <- <-. exists d, subdir. eexists. split; [reflexivity|].
      left. split; [|reflexivity].
      unfold dirs_of in Hitem. now apply filter_In in Hitem.
    + apply (IH _ _ _ Hsub _ _ Hin).
  - apply in_map_iff in Hin. destruct Hin as ([j file] & Hq & Hj).
    injection Hq as <- <-.
    apply In_enumerate, nth_error_In in Hj. exists d, file. eexists.
    split; [reflexivity|]. right. split; [|reflexivity].
    unfold files_of in Hj. now apply filter_In in Hj.
Qed.

(** *** Errors *)

Lemma print_listdir_error fuel d prefix e :
  listdir d = inl e -> print (S fuel) d prefix = Raise e.
Proof. intros H. now rewrite print_S, H. Qed.

(** A call that enters a directory whose listing raises does not return. *)
Lemma unlistable_never_returns d prefix flags d' prefix' e' :
  walks d prefix flags d' prefix' -> listdir d' = inl e' ->
  forall fuel lines, print fuel d prefix <> Return lines.
Proof.
  intros Hw He fuel lines H.
  destruct (descends_returns _ _ _ _ _ Hw _ _ H) as (fuel' & lines' & H' & _).
  destruct fuel' as [|fuel']; [discriminate|].
  rewrite (print_listdir_error _ _ _ _ He) in H'. discriminate.
Qed.

(** An error raised by a call is the error of listing a directory the
    call entered. *)
Lemma raise_origin fuel :
  forall d prefix e, print fuel d prefix = Raise e ->
  exists flags d' prefix', walks d prefix flags d' prefix' /\ listdir d' = inl e.
Proof.
  induction fuel as [|fuel IH]; intros d prefix e H; [discriminate|].
  rewrite print_S in H. destruct (listdir d) as [e0|names] eqn:Hl.
  - injection H as ->. exists [], d, prefix. split; [constructor | exact Hl].
  - destruct (dirs_loop _ _ _ _ _ _ _) as [out|e0|] eqn:E; simpl in H;
      try discriminate.
    injection H as ->.
    destruct (dirs_loop_Raise _ _ _ _ _ _ _ E)
      as (done & [i subdir] & rest & subs & Htodo & _ & Hr).
    destruct (IH _ _ _ Hr) as (flags & d' & prefix' & Hw & He).
    assert (Hi : nth_error (dirs_in d names) i = Some subdir).
    { apply In_enumerate. rewrite Htodo. apply in_or_app. right. now left. }
    eexists. exists d', prefix'. split; [|exact He].
    eapply descends_into; eassumption.
Qed.

Lemma returns_all_blocks rec d prefix n todo subs :
  returns_all join rec d prefix n todo subs ->
  Forall2 (fun item blk =>
             exists sub,
               rec (join d (snd item)) (child_prefix prefix n (fst item))
               = Return sub /\
               blk = dir_line prefix n item :: sub)
          todo (map (block prefix n) (combine todo subs)).
Proof.
  induction 1 as [|item sub todo subs Hr Hall IH]; simpl; constructor.
  - exists sub. split; [exact Hr | reflexivity].
  - exact IH.
Qed.

Lemma last_index_iff i n : last_index i n = true <-> S i = n.
Proof. unfold last_index. rewrite Z.eqb_eq. lia. Qed.

Lemma last_index_eqb i n : last_index i n = (S i =? n)%nat.
Proof.
  destruct (Nat.eqb_spec (S i) n) as [E|E].
  - now apply last_index_iff.
  - destruct (last_index i n) eqn:E'; [|reflexivity].
    now apply last_index_iff in E'.
Qed.

(** *** The order of the lines of one directory *)

(** C1: a returning call returns the blocks of the subdirectories (each
    the heading line of the subdirectory followed by the lines of the
    recursive call on it), one per subdirectory and in their order, and
    after all of them the lines of the files; no assumption relates the
    names of the subdirectories to the names of the files. *)
Theorem subdirectory_blocks_precede_files fuel d prefix lines :
  print_directory_tree listdir isfile isdir join (S fuel) d prefix = Return lines ->
  exists names blocks,
    listdir d = inr names /\
    Forall2 (fun item blk =>
               exists sub,
                 print_directory_tree listdir isfile isdir join fuel (join d (snd item))
                       (child_prefix prefix (length (dirs_of isdir join d names)) (fst item))
                 = Return sub /\
                 blk = dir_line prefix (length (dirs_of isdir join d names)) item :: sub)
            (enumerate (dirs_of isdir join d names)) blocks /\
    lines = concat blocks
            ++ map (file_line prefix (length (files_of isfile join d names)))
                   (enumerate (files_of isfile join d names)).
Proof.
  intros H. destruct (print_shape _ _ _ _ H) as (names & subs & Hl & Hall & ->).
  exists names. eexists. split; [exact Hl|]. split; [|reflexivity].
  now apply returns_all_blocks.
Qed.

(** C2: the files of a directory are its listed names that are files, in
    ascending codepoint order; their lines end every returned sequence,
    in that order, with the glyph [`-- ] on the last one and [|-- ] on
    the others.  A directory that holds only the files [b.txt] and
    [a.txt] renders as the line of [a.txt] then the line of [b.txt]. *)
Theorem files_sorted_with_glyphs fuel d prefix names :
  listdir d = inr names ->
  StronglySorted str_le (files_of isfile join d names) /\
  Permutation (filter (fun entry => isfile (join d entry)) names)
              (files_of isfile join d names) /\
  (forall lines, print_directory_tree listdir isfile isdir join (S fuel) d prefix = Return lines ->
     exists dir_lines,
       lines = dir_lines
               ++ map (fun item =>
                         prefix
                         +++ (if (S (fst item) =? length (files_of isfile join d names))%nat
                              then "`-- " else "|-- ")
                         +++ snd item)
                      (enumerate (files_of isfile join d names))) /\
  (names = ["b.txt"; "a.txt"] ->
   isfile (join d "a.txt") = true -> isfile (join d "b.txt") = true ->
   isdir (join d "a.txt") = false -> isdir (join d "b.txt") = false ->
   print_directory_tree listdir isfile isdir join (S fuel) d prefix
   = Return [prefix +++ "|-- " +++ "a.txt"; prefix +++ "`-- " +++ "b.txt"]).
Proof.
  intros Hl. split; [|split; [|split]].
  - apply StronglySorted_filter, sorted_StronglySorted.
  - apply Permutation_filter, sorted_Permutation.
  - intros lines H.
    destruct (print_shape _ _ _ _ H) as (names' & subs & Hl' & _ & ->).
    rewrite Hl in Hl'. injection Hl' as <-.
    eexists. f_equal. apply map_ext. intros [i file].
    unfold file_line, glyph. now rewrite last_index_eqb.
  - intros -> Ha Hb Ha' Hb'. rewrite print_S, Hl.
    unfold dirs_of, files_of.
    change (sorted ["b.txt"; "a.txt"]) with ["a.txt"; "b.txt"].
    simpl. rewrite Ha, Hb, Ha', Hb'. reflexivity.
Qed.

(** C3: the heading line of the subdirectory at index [i] of the [n]
    subdirectories of a directory opens the block at position [i] and
    carries [`-- ] when [i] is [n - 1] and [|-- ] otherwise; the lines of
    the files, whatever they are, come after the blocks. *)
Theorem subdirectory_glyph_by_index fuel d prefix lines names i subdir :
  print_directory_tree listdir isfile isdir join (S fuel) d prefix = Return lines ->
  listdir d = inr names ->
  nth_error (dirs_of isdir join d names) i = Some subdir ->
  exists blocks_before sub blocks_after,
    length blocks_before = i /\
    lines = concat blocks_before
            ++ (prefix
                +++ (if (S i =? length (dirs_of isdir join d names))%nat then "`-- " else "|-- ")
                +++ subdir +++ "/") :: sub
            ++ concat blocks_after
            ++ map (file_line prefix (length (files_of isfile join d names)))
                   (enumerate (files_of isfile join d names)).
Proof.
  intros H Hl Hi.
  destruct (print_shape _ _ _ _ H) as (names' & subs & Hl' & Hall & ->).
  rewrite Hl in Hl'. injection Hl' as <-.
  destruct (returns_all_nth _ _ _ _ _ _ _ _ Hall (nth_error_enumerate _ _ _ Hi))
    as (sub & _ & Hb).
  destruct (nth_error_split _ _ Hb) as (l1 & l2 & E & Hlen).
  exists (map (block prefix (length (dirs_in d names))) l1), sub,
         (map (block prefix (length (dirs_in d names))) l2).
  split; [now rewrite length_map|].
  rewrite E, map_app, concat_app. simpl.
  rewrite <- !app_assoc. f_equal.
  unfold block at 1, dir_line, glyph. cbn [fst snd app].
  now rewrite last_index_eqb, <- !app_assoc.
Qed.

Lemma segment_eqb i n :
  segment (last_index i n) = if (S i =? n)%nat then "    " else "|   ".
Proof. now rewrite last_index_eqb. Qed.

(** C4: the recursive call on the subdirectory at index [i] of [n] gets
    the current prefix followed by four spaces when [i] is [n - 1] and by
    [|   ] otherwise, and its lines are among those returned.  Hence the
    line of a file of a directory entered through [N] subdirectories is
    the starting prefix, then [N] such segments, one for the last or
    non-last status of each of those subdirectories in order, then the
    glyph and the name. *)
Theorem prefix_extended_per_level fuel d prefix lines :
  print_directory_tree listdir isfile isdir join fuel d prefix = Return lines ->
  (forall names i subdir,
      listdir d = inr names ->
      nth_error (dirs_of isdir join d names) i = Some subdir ->
      exists fuel' sub,
        fuel = S fuel' /\
        print_directory_tree listdir isfile isdir join fuel' (join d subdir)
              (prefix +++ (if (S i =? length (dirs_of isdir join d names))%nat
                           then "    " else "|   "))
        = Return sub /\
        incl sub lines) /\
  (forall flags d' prefix' names' j file,
      descends listdir isdir join d prefix flags d' prefix' ->
      listdir d' = inr names' ->
      nth_error (files_of isfile join d' names') j = Some file ->
      exists segments,
        length segments = length flags /\
        Forall2 (fun (is_last : bool) s =>
                   s = if is_last then "    " else "|   ") flags segments /\
        prefix' = prefix +++ String.concat "" segments /\
        In (prefix +++ String.concat "" segments
            +++ glyph (last_index j (length (files_of isfile join d' names'))) +++ file)
           lines).
Proof.
  intros H. split.
  - intros names i subdir Hl Hi.
    destruct fuel as [|fuel]; [discriminate|].
    destruct (print_shape _ _ _ _ H) as (names' & subs & Hl' & Hall & ->).
    rewrite Hl in Hl'. injection Hl' as <-.
    destruct (returns_all_nth _ _ _ _ _ _ _ _ Hall (nth_error_enumerate _ _ _ Hi))
      as (sub & Hsub & Hb).
    exists fuel, sub. split; [reflexivity|]. split.
    + rewrite <- segment_eqb. exact Hsub.
    + intros line Hin. apply (block_incl _ _ _ _ _ _ Hb). now right.
  - intros flags d' prefix' names' j file Hw Hl Hj.
    exists (map segment flags). split; [apply length_map|]. split.
    + clear. induction flags as [|b flags IH]; simpl; constructor;
        [reflexivity | exact IH].
    + split; [exact (descends_prefix _ _ _ _ _ Hw)|].
      rewrite <- (descends_prefix _ _ _ _ _ Hw).
      eapply lines_complete; [exact H|].
      eapply entry_file; eassumption.
Qed.

(** C5: every returned line is the line of an entry of a directory the
    call enters, and every such entry has its line returned; the line of
    a subdirectory is a prefix, a glyph, the name and then [/], the line
    of a file is a prefix, a glyph and the name with nothing after it. *)
Theorem directory_lines_end_with_slash fuel d prefix lines :
  print_directory_tree listdir isfile isdir join fuel d prefix = Return lines ->
  (forall line, In line lines ->
     exists is_dir name, entry_line listdir isfile isdir join d prefix is_dir name line) /\
  (forall is_dir name line, entry_line listdir isfile isdir join d prefix is_dir name line ->
     In line lines /\
     exists indent g,
       (g = "`-- " \/ g = "|-- ") /\
       line = if is_dir then indent +++ g +++ name +++ "/"
              else indent +++ g +++ name).
Proof.
  intros H. split; [apply (lines_sound _ _ _ _ H)|].
  intros is_dir name line Hline. split; [eapply lines_complete; eassumption|].
  destruct Hline as [flags d' prefix' names i subdir Hw Hl Hi
                    |flags d' prefix' names j file Hw Hl Hj].
  - exists prefix', (glyph (last_index i (length (dirs_in d' names)))).
    split; [unfold glyph; destruct (last_index _ _); auto|].
    now rewrite (append_assoc _ subdir "/").
  - exists prefix', (glyph (last_index j (length (files_in d' names)))).
    split; [unfold glyph; destruct (last_index _ _); auto | reflexivity].
Qed.

(** C7: a directory whose listing is empty renders as no lines. *)
Theorem empty_directory_renders_nothing fuel d prefix :
  listdir d = inr [] -> print_directory_tree listdir isfile isdir join (S fuel) d prefix = Return [].
Proof. intros Hl. rewrite print_S, Hl. reflexivity. Qed.

End RenderFacts.

(** ** Finite trees *)

Section TreeFacts.

Variable root : node.

Lemma resolve_snoc p name :
  resolve root (p ++ [name]) = step (resolve root p) name.
Proof. unfold resolve. now rewrite fold_left_app. Qed.

Lemma lookup_In name entries c :
  lookup name entries = Some c -> In (name, c) entries.
Proof.
  induction entries as [|[n c'] entries IH]; simpl; [discriminate|].
  destruct (String.eqb_spec name n) as [->|_].
  - intros H; injection H as ->. now left.
  - intros H. right. now apply IH.
Qed.

Lemma height_lookup name entries c :
  lookup name entries = Some c -> height c < height (Dir entries).
Proof.
  intros H. apply lookup_In in H. simpl. apply Nat.lt_succ_r.
  assert (G : Forall (fun k => k <= list_max (map (fun e => height (snd e)) entries))
                     (map (fun e => height (snd e)) entries))
    by now apply list_max_le.
  rewrite Forall_forall in G. apply G.
  change (height c) with ((fun e => height (snd e)) (name, c)).
  now apply in_map.
Qed.

(** An entry that [os.path.isdir] accepts is a child that is a directory,
    listable or not. *)
Lemma isdir_child p entries name :
  resolve root p = Some (Dir entries) ->
  t_isdir root (t_join p name) = true ->
  exists c, lookup name entries = Some c /\
            resolve root (p ++ [name]) = Some c /\
            (c = Locked \/ exists es, c = Dir es).
Proof.
  unfold t_isdir, t_join. rewrite resolve_snoc. intros -> H. simpl in *.
  destruct (lookup name entries) as [[| es | | | |]|]; try discriminate.
  - exists (Dir es). eauto.
  - exists Locked. eauto.
Qed.

Lemma In_dirs_isdir p names subdir :
  In subdir (dirs_of (t_isdir root) t_join p names) ->
  t_isdir root (t_join p subdir) = true.
Proof. unfold dirs_of. intros H. now apply filter_In in H. Qed.

(** With a budget above the height of the tree the recursion never
    exhausts it. *)
Lemma render_within_budget fuel :
  forall p n prefix,
    resolve root p = Some n -> height n < fuel ->
    render root fuel p prefix <> OutOfFuel.
Proof.
  induction fuel as [|fuel IH]; intros p n prefix Hp Hh; [lia|].
  unfold render. rewrite print_S. unfold t_listdir at 1. rewrite Hp.
  destruct n as [|entries| | | |]; try discriminate.
  match goal with
  | |- bind ?m _ <> _ => assert (G : m <> OutOfFuel)
  end.
  { apply dirs_loop_fuel. intros [i subdir] prefix' Hin.
    apply In_enumerate, nth_error_In, In_dirs_isdir in Hin.
    destruct (isdir_child _ _ _ Hp Hin) as (c & Hc & Hr & _).
    apply (IH _ c); [exact Hr|].
    apply height_lookup in Hc. lia. }
  match goal with
  | |- bind ?m _ <> _ => destruct m; simpl; congruence
  end.
Qed.

Lemma listable_lookup name entries c :
  listable (Dir entries) = true -> lookup name entries = Some c ->
  listable c = true.
Proof.
  simpl. rewrite forallb_forall. intros H Hc.
  apply (H (name, c)). now apply lookup_In.
Qed.

(** When moreover every directory may be listed, the call returns. *)
Lemma render_returns fuel :
  forall p entries prefix,
    resolve root p = Some (Dir entries) ->
    listable (Dir entries) = true ->
    height (Dir entries) < fuel ->
    exists lines, render root fuel p prefix = Return lines.
Proof.
  induction fuel as [|fuel IH]; intros p entries prefix Hp Hl Hh; [lia|].
  assert (Hall : forall todo,
             incl todo (enumerate (dirs_of (t_isdir root) t_join p
                                           (map fst entries))) ->
             exists subs,
               returns_all t_join (render root fuel) p prefix
                 (length (dirs_of (t_isdir root) t_join p (map fst entries)))
                 todo subs).
  { induction todo as [|[i subdir] todo IHt]; intros Hincl.
    - exists []. constructor.
    - destruct IHt as [subs Hsubs].
      { intros x Hx. apply Hincl. now right. }
      assert (Hin : In (i, subdir) (enumerate (dirs_of (t_isdir root) t_join p
                                                       (map fst entries))))
        by (apply Hincl; now left).
      apply In_enumerate, nth_error_In, In_dirs_isdir in Hin.
      destruct (isdir_child _ _ _ Hp Hin) as (c & Hc & Hr & Hk).
      pose proof (listable_lookup _ _ _ Hl Hc) as Hlc.
      destruct Hk as [-> | [es ->]]; [discriminate|].
      destruct (IH (p ++ [subdir]) es
                   (child_prefix prefix
                      (length (dirs_of (t_isdir root) t_join p (map fst entries))) i)
                   Hr Hlc) as [sub Hsub].
      { apply height_lookup in Hc. lia. }
      exists (sub :: subs). constructor; [exact Hsub | exact Hsubs]. }
  destruct (Hall _ (incl_refl _)) as [subs Hsubs].
  eexists. unfold render. apply print_complete with (names := map fst entries).
  - unfold t_listdir. now rewrite Hp.
  - exact Hsubs.
Qed.

Lemma render_stable fuel p n prefix :
  resolve root p = Some n -> height n < fuel ->
  render root fuel p prefix = render root (S (height n)) p prefix.
Proof.
  intros Hp Hh.
  apply (print_mono_le _ _ _ _ _ _ (S (height n)) fuel p prefix);
    [lia | reflexivity|].
  apply (render_within_budget _ _ n); [exact Hp | lia].
Qed.

End TreeFacts.

(** ** Termination and failure on finite trees *)

Section TreeClaims.

Variable root : node.

Abbreviation tree_walks := (descends (t_listdir root) (t_isdir root) t_join).



End TreeClaims.

(** ** Lines and entries of a finite tree *)

Section TreePaths.

Variable root : node.

Abbreviation t_traced :=
  (traced (t_listdir root) (t_isfile root) (t_isdir root) t_join).
Abbreviation t_dirs := (dirs_of (t_isdir root) t_join).
Abbreviation t_files := (files_of (t_isfile root) t_join).

Lemma resolve_app p rest :
  resolve root (p ++ rest) = fold_left step rest (resolve root p).
Proof. unfold resolve. now rewrite fold_left_app. Qed.

Lemma fold_step_None rest : fold_left step rest None = None.
Proof. induction rest as [|name rest IH]; simpl; [reflexivity | exact IH]. Qed.

Lemma listdir_inv p names :
  t_listdir root p = inr names ->
  exists entries, resolve root p = Some (Dir entries) /\ names = map fst entries.
Proof.
  unfold t_listdir. destruct (resolve root p) as [[|entries| | | |]|];
    try discriminate.
  intros H; injection H as <-. eauto.
Qed.

Lemma is_entry_resolves q :
  is_entry root q = true -> exists c, resolve root q = Some c.
Proof.
  unfold is_entry, t_isfile, t_isdir.
  destruct (resolve root q) as [c|]; [eauto | discriminate].
Qed.

Lemma isfile_not_isdir q :
  t_isfile root q = true -> t_isdir root q = true -> False.
Proof.
  unfold t_isfile, t_isdir.
  destruct (resolve root q) as [[| | | | |]|]; discriminate.
Qed.

Lemma In_dirs p (entries : list (string * node)) name :
  In name (map fst entries) -> t_isdir root (t_join p name) = true ->
  In name (t_dirs p (map fst entries)).
Proof.
  intros Hin Hd. unfold dirs_of. apply filter_In. split; [|exact Hd].
  eapply Permutation_in; [apply sorted_Permutation | exact Hin].
Qed.

Lemma In_files p (entries : list (string * node)) name :
  In name (map fst entries) -> t_isfile root (t_join p name) = true ->
  In name (t_files p (map fst entries)).
Proof.
  intros Hin Hf. unfold files_of. apply filter_In. split; [|exact Hf].
  eapply Permutation_in; [apply sorted_Permutation | exact Hin].
Qed.

(** The paths traced are exactly the entries below the starting path. *)
Lemma traced_covers fuel :
  forall p prefix ps,
    t_traced fuel p prefix = Return ps ->
    forall q, In q (map fst ps) <-> below root p q.
Proof.
  induction fuel as [|fuel IH]; intros p prefix ps H q; [discriminate|].
  destruct (traced_shape _ _ _ _ _ _ _ _ _ _ H) as (names & subs & Hl & Hall & ->).
  destruct (listdir_inv _ _ Hl) as (entries & Hp & ->).
  rewrite map_app, in_app_iff, in_traced_blocks, in_traced_files.
  split.
  - intros [([[i subdir] sub] & Hb & Hq) | ([j file] & Hj & ->)]; simpl in *.
    + destruct (returns_all_In _ _ _ _ _ _ _ _ _ _ _ Hall Hb) as [Hsub Hitem].
      apply In_enumerate, nth_error_In, In_dirs_isdir in Hitem. simpl in *.
      destruct Hq as [-> | Hq].
      * split; [exists subdir, []; reflexivity|].
        unfold is_entry. rewrite Hitem. apply orb_true_r.
      * apply (IH _ _ _ Hsub) in Hq. destruct Hq as [(name & rest & ->) He].
        split; [|exact He].
        exists subdir, (name :: rest). unfold t_join.
        now rewrite <- app_assoc.
    + apply In_enumerate, nth_error_In in Hj.
      unfold files_of in Hj. apply filter_In in Hj. destruct Hj as [_ Hj].
      split; [exists file, []; reflexivity|].
      unfold is_entry. now rewrite Hj.
  - intros [(name & rest & ->) He].
    assert (Hc : exists c, lookup name entries = Some c).
    { destruct (is_entry_resolves _ He) as [c Hc].
      rewrite resolve_app, Hp in Hc. simpl in Hc.
      destruct (lookup name entries) as [c'|]; [eauto|].
      now rewrite fold_step_None in Hc. }
    destruct Hc as [c Hc].
    assert (Hname : In name (map fst entries)).
    { change name with (fst (name, c)). apply in_map, lookup_In, Hc. }
    assert (Hr : resolve root (p ++ [name]) = Some c)
      by (rewrite resolve_snoc, Hp; exact Hc).
    assert (Hdir : t_isdir root (t_join p name) = true ->
                   exists b, In b (combine (enumerate (t_dirs p (map fst entries))) subs)
                             /\ snd (fst b) = name
                             /\ t_traced fuel (p ++ [name])
                                   (child_prefix prefix
                                      (length (t_dirs p (map fst entries)))
                                      (fst (fst b)))
                                 = Return (snd b)).
    { intros Hd. destruct (In_nth_error _ _ (In_dirs _ _ _ Hname Hd)) as [i Hi].
      destruct (returns_all_nth _ _ _ _ _ _ _ _ _ _ _ Hall
                  (nth_error_enumerate _ _ _ Hi)) as (sub & Hsub & Hb).
      exists ((i, name), sub). split; [eapply nth_error_In, Hb|].
      split; [reflexivity | exact Hsub]. }
    destruct rest as [|name' rest].
    + unfold is_entry in He. apply orb_true_iff in He. destruct He as [He | He].
      * right. destruct (In_nth_error _ _ (In_files _ _ _ Hname He)) as [j Hj].
        exists (j, name). split; [|reflexivity].
        eapply nth_error_In, nth_error_enumerate, Hj.
      * left. destruct (Hdir He) as (b & Hb & Hn & _).
        exists b. split; [exact Hb|]. left. now rewrite Hn.
    + assert (Hd : t_isdir root (t_join p name) = true).
      { destruct (is_entry_resolves _ He) as [c' Hc'].
        rewrite resolve_app, Hp in Hc'. simpl in Hc'. rewrite Hc in Hc'.
        unfold t_isdir, t_join. rewrite Hr.
        destruct c as [|es| | | |]; try reflexivity; simpl in Hc';
          now rewrite fold_step_None in Hc'. }
      left. destruct (Hdir Hd) as (b & Hb & Hn & Hsub).
      exists b. split; [exact Hb|]. right.
      apply (IH _ _ _ Hsub). split; [|exact He].
      exists name', rest. now rewrite <- app_assoc.
Qed.

(** *** No path is traced twice *)

Lemma nodupb_NoDup names : nodupb names = true -> NoDup names.
Proof.
  induction names as [|name rest IH]; simpl; [constructor|].
  rewrite andb_true_iff, negb_true_iff. intros [Hn Hr].
  constructor; [|now apply IH].
  intros Hin. assert (E : existsb (String.eqb name) rest = true).
  { apply existsb_exists. exists name. split; [exact Hin | apply String.eqb_refl]. }
  congruence.
Qed.

Lemma wfb_lookup name entries c :
  wfb (Dir entries) = true -> lookup name entries = Some c -> wfb c = true.
Proof.
  simpl. rewrite andb_true_iff, forallb_forall. intros [_ H] Hc.
  apply (H (name, c)). now apply lookup_In.
Qed.

Lemma wfb_resolve p :
  forall n, wfb root = true -> resolve root p = Some n -> wfb n = true.
Proof.
  induction p as [|name p IH] using rev_ind; intros n Hwf Hp.
  - injection Hp as <-. exact Hwf.
  - rewrite resolve_snoc in Hp.
    destruct (resolve root p) as [[|entries| | | |]|]; try discriminate.
    simpl in Hp. eapply wfb_lookup; [|exact Hp]. now apply IH.
Qed.

Lemma names_NoDup p entries :
  wfb root = true -> resolve root p = Some (Dir entries) ->
  NoDup (map fst entries).
Proof.
  intros Hwf Hp. apply wfb_resolve in Hp; [|exact Hwf].
  simpl in Hp. apply andb_true_iff in Hp. now apply nodupb_NoDup.
Qed.

Lemma sorted_NoDup names : NoDup names -> NoDup (sorted names).
Proof. apply Permutation_NoDup, sorted_Permutation. Qed.

Lemma starts_inj p name name' q : starts p name q -> starts p name' q -> name = name'.
Proof.
  intros [rest ->] [rest' H]. apply app_inv_head in H. now injection H.
Qed.

Lemma below_starts p name q : below root (p ++ [name]) q -> starts p name q.
Proof.
  intros [(n & rest & ->) _]. exists (n :: rest). now rewrite <- app_assoc.
Qed.

Lemma below_proper p q : below root p q -> q <> p.
Proof.
  intros [(n & rest & ->) _] H. apply (f_equal (@length string)) in H.
  rewrite length_app in H. simpl in H. lia.
Qed.

Lemma block_starts fuel p prefix n todo subs b q :
  returns_all t_join (t_traced fuel) p prefix n todo subs ->
  In b (combine todo subs) ->
  q = t_join p (snd (fst b)) \/ In q (map fst (snd b)) ->
  starts p (snd (fst b)) q /\ In (snd (fst b)) (map snd todo).
Proof.
  intros Hall Hb Hq. destruct b as [item sub].
  destruct (returns_all_In _ _ _ _ _ _ _ _ _ _ _ Hall Hb) as [Hsub Hitem].
  simpl in *. split; [|now apply in_map].
  destruct Hq as [-> | Hq].
  - now exists [].
  - apply (traced_covers _ _ _ _ Hsub) in Hq. now apply below_starts.
Qed.

Lemma traced_NoDup fuel :
  wfb root = true ->
  forall p prefix ps, t_traced fuel p prefix = Return ps -> NoDup (map fst ps).
Proof.
  intros Hwf. induction fuel as [|fuel IH]; intros p prefix ps H; [discriminate|].
  destruct (traced_shape _ _ _ _ _ _ _ _ _ _ H) as (names & subs & Hl & Hall & ->).
  destruct (listdir_inv _ _ Hl) as (entries & Hp & ->).
  pose proof (sorted_NoDup _ (names_NoDup _ _ Hwf Hp)) as Hnd.
  rewrite map_app. apply NoDup_app.
  - assert (Hd : NoDup (map snd (enumerate (t_dirs p (map fst entries)))))
      by (rewrite enumerate_snd; apply NoDup_filter, Hnd).
    clear H. revert Hall Hd.
    generalize (length (t_dirs p (map fst entries))) as n.
    generalize (enumerate (t_dirs p (map fst entries))) as todo.
    intros todo n Hall. induction Hall as [|[i name] sub todo subs Hsub Hall IHl];
      intros Hd; simpl; [constructor|].
    rewrite map_app. simpl in Hd. apply NoDup_cons_iff in Hd.
    destruct Hd as [Hname Hd].
    assert (Hrest : forall q,
               In q (map fst (concat (map (traced_block t_join p prefix n)
                                          (combine todo subs)))) ->
               exists name', starts p name' q /\ In name' (map snd todo)).
    { intros q Hq. apply in_traced_blocks in Hq. destruct Hq as (b & Hb & Hq).
      exists (snd (fst b)). eapply block_starts; eassumption. }
    constructor.
    + rewrite in_app_iff. intros [Hin | Hin].
      * apply (traced_covers _ _ _ _ Hsub), below_proper in Hin. now apply Hin.
      * destruct (Hrest _ Hin) as (name' & Hs & Hin').
        assert (name = name') by (eapply starts_inj; [now exists [] | exact Hs]).
        subst name'. contradiction.
    + apply NoDup_app; [apply (IH _ _ _ Hsub) | now apply IHl |].
      intros q Hq Hq'.
      apply (traced_covers _ _ _ _ Hsub), below_starts in Hq.
      destruct (Hrest _ Hq') as (name' & Hs & Hin').
      assert (name = name') by (eapply starts_inj; eassumption).
      subst name'. contradiction.
  - rewrite map_map. simpl.
    rewrite <- (map_map snd (fun file => t_join p file)), enumerate_snd.
    apply NoDup_map_NoDup_ForallPairs; [|apply NoDup_filter, Hnd].
    intros x y _ _ E. apply app_inv_head in E. now injection E.
  - intros q Hq Hq'.
    apply in_traced_blocks in Hq. destruct Hq as (b & Hb & Hq).
    destruct (block_starts _ _ _ _ _ _ _ _ Hall Hb Hq) as [Hs Hin].
    rewrite enumerate_snd in Hin. apply In_dirs_isdir in Hin.
    apply in_traced_files in Hq'. destruct Hq' as ([j file] & Hj & ->).
    apply In_enumerate, nth_error_In in Hj. unfold files_of in Hj.
    apply filter_In in Hj. destruct Hj as [_ Hj]. simpl in *.
    assert (snd (fst b) = file) by (eapply starts_inj; [exact Hs | now exists []]).
    subst file. eapply isfile_not_isdir; eassumption.
Qed.

End TreePaths.

Section TreeEntries.

Variable root : node.

(** C6: on a tree where no directory holds a name twice, the lines
    returned are, position by position, the lines of a list of paths
    without repetition that holds exactly the paths below the root that
    [os.path.isfile] or [os.path.isdir] accepts; the line at a position
    ends with the last name of the path at that position, followed by
    [/] for a directory. *)
Theorem lines_match_file_and_directory_entries fuel prefix lines :
  wfb root = true ->
  render root fuel [] prefix = Return lines ->
  exists ps : list (list string * string),
    traced (t_listdir root) (t_isfile root) (t_isdir root) t_join fuel [] prefix
    = Return ps /\
    map snd ps = lines /\
    NoDup (map fst ps) /\
    (forall q, In q (map fst ps) <-> q <> [] /\ is_entry root q = true) /\
    (forall q line, In (q, line) ps ->
       exists parent name indent,
         q = parent ++ [name] /\
         ((t_isdir root q = true /\ line = indent +++ name +++ "/") \/
          (t_isfile root q = true /\ line = indent +++ name))).
Proof.
  intros Hwf H. unfold render in H. rewrite traced_lines in H.
  destruct (traced _ _ _ _ fuel [] prefix) as [ps|e|] eqn:E; try discriminate.
  simpl in H. injection H as <-. exists ps.
  split; [reflexivity|]. split; [reflexivity|].
  split; [eapply traced_NoDup; eassumption|]. split.
  - intros q. rewrite (traced_covers _ _ _ _ _ E). unfold below. simpl.
    split; intros [Hq He]; (split; [|exact He]).
    + destruct Hq as (name & rest & ->). discriminate.
    + destruct q as [|name rest]; [congruence | eauto].
  - intros q line Hin.
    apply (traced_pairs _ _ _ _ _ _ _ _ _ _ E _ _ Hin).
Qed.

End TreeEntries.

(** ** The text sink *)

Lemma split_newline_single (s : string) :
  has_newline s = false -> split_newline s = [s].
Proof.
  induction s as [|c s IH]; simpl; [reflexivity|].
  destruct (Ascii.eqb c "010"%char); simpl; [discriminate|].
  intros H. now rewrite (IH H).
Qed.

Lemma split_newline_append (s t : string) :
  has_newline s = false ->
  split_newline (s +++ String "010"%char t) = s :: split_newline t.
Proof.
  induction s as [|c s IH]; simpl; [reflexivity|].
  destruct (Ascii.eqb c "010"%char); simpl; [discriminate|].
  intros H. now rewrite (IH H).
Qed.

Lemma split_join (lines : list string) :
  lines <> [] -> Forall (fun l => has_newline l = false) lines ->
  split_newline (String.concat newline lines) = lines.
Proof.
  intros Hne Hall. induction Hall as [|x l Hx Hl IH]; [congruence|].
  destruct l as [|y l].
  - simpl. now apply split_newline_single.
  - change (String.concat newline (x :: y :: l))
      with (x +++ String "010"%char (String.concat newline (y :: l))).
    rewrite (split_newline_append _ _ Hx). f_equal.
    apply IH. discriminate.
Qed.

(** What [split] returns is never empty and holds no newline, so the
    two conditions of [split_join] are needed. *)
Lemma split_newline_parts (s : string) :
  split_newline s <> [] /\ Forall (fun l => has_newline l = false) (split_newline s).
Proof.
  induction s as [|c s [Hne Hall]]; simpl.
  - split; [discriminate | repeat constructor].
  - destruct (Ascii.eqb c "010"%char) eqn:E.
    + split; [discriminate | constructor; [reflexivity | exact Hall]].
    + destruct (split_newline s) as [|h t]; [congruence|].
      split; [discriminate|]. inversion Hall; subst.
      constructor; [simpl; now rewrite E | assumption].
Qed.

Lemma write_read (filepath text : string) (st : store) :
  write filepath text st filepath = Some text.
Proof. unfold write. now rewrite String.eqb_refl. Qed.


(** * The claims on concrete trees *)

Lemma subdirectory_blocks_precede_files_witness :
  render demo 4 [] "" = Return demo_lines /\
  exists blocks, length blocks = 2 /\ demo_lines = concat blocks ++ ["`-- f.txt"].
Proof.
  split; [reflexivity|].
  destruct (subdirectory_blocks_precede_files _ _ (t_listdir demo) (t_isfile demo)
              (t_isdir demo) t_join 3 [] "" demo_lines eq_refl)
    as (names & blocks & Hl & Hb & E).
  vm_compute in Hl. injection Hl as <-.
  exists blocks. split; [|exact E].
  apply Forall2_length in Hb. rewrite <- Hb. reflexivity.
Defined.

Lemma files_sorted_with_glyphs_witness :
  t_listdir only_files [] = inr ["b.txt"; "a.txt"] /\
  render only_files 1 [] "" = Return ["|-- a.txt"; "`-- b.txt"].
Proof.
  split; [reflexivity|].
  exact (proj2 (proj2 (proj2
           (files_sorted_with_glyphs _ _ (t_listdir only_files) (t_isfile only_files)
              (t_isdir only_files) t_join 0 [] "" ["b.txt"; "a.txt"] eq_refl)))
         eq_refl eq_refl eq_refl eq_refl eq_refl).
Defined.

Lemma subdirectory_glyph_by_index_witness :
  render demo 4 [] "" = Return demo_lines /\
  exists blocks_before sub blocks_after,
    length blocks_before = 1 /\
    demo_lines = concat blocks_before ++ "`-- sub/" :: sub
                 ++ concat blocks_after ++ ["`-- f.txt"].
Proof.
  split; [reflexivity|].
  exact (subdirectory_glyph_by_index _ _ (t_listdir demo) (t_isfile demo)
           (t_isdir demo) t_join 3 [] "" demo_lines
           ["f.txt"; "sub"; "Zed"; "zz"] 1 "sub" eq_refl eq_refl eq_refl).
Defined.

Lemma empty_directory_renders_nothing_witness :
  t_listdir (Dir []) [] = inr [] /\ render (Dir []) 1 [] "" = Return [].
Proof.
  split; [reflexivity|].
  exact (empty_directory_renders_nothing _ _ (t_listdir (Dir [])) (t_isfile (Dir []))
           (t_isdir (Dir [])) t_join 0 [] "" eq_refl).
Defined.

Lemma prefix_extended_per_level_witness :
  render demo 4 [] "" = Return demo_lines /\
  exists segments,
    length segments = 1 /\
    Forall2 (fun (is_last : bool) s => s = if is_last then "    " else "|   ")
            [false] segments /\
    In ("" +++ String.concat "" segments +++ "`-- " +++ "k") demo_lines.
Proof.
  split; [reflexivity|].
  pose proof (@descends_into _ _ (t_listdir demo) (t_isdir demo) t_join
                [] "" ["f.txt"; "sub"; "Zed"; "zz"] 0 "Zed" [] _ _
                eq_refl eq_refl (descends_here _ _ _ _ _)) as Hw.
  destruct (proj2 (prefix_extended_per_level _ _ (t_listdir demo) (t_isfile demo)
                     (t_isdir demo) t_join 4 [] "" demo_lines eq_refl)
                  _ _ _ ["k"] 0 "k" Hw eq_refl eq_refl)
    as (segments & Hlen & Hseg & _ & Hin).
  exists segments. split; [exact Hlen|]. split; [exact Hseg | exact Hin].
Defined.

Lemma directory_lines_end_with_slash_witness :
  render demo 4 [] "" = Return demo_lines /\
  forall line, In line demo_lines ->
    exists is_dir name,
      entry_line (t_listdir demo) (t_isfile demo) (t_isdir demo) t_join
                 [] "" is_dir name line.
Proof.
  split; [reflexivity|].
  exact (proj1 (directory_lines_end_with_slash _ _ (t_listdir demo) (t_isfile demo)
                  (t_isdir demo) t_join 4 [] "" demo_lines eq_refl)).
Defined.

Lemma lines_match_file_and_directory_entries_witness :
  wfb demo = true /\
  render demo 4 [] "" = Return demo_lines /\
  exists ps : list (list string * string),
    map snd ps = demo_lines /\
    NoDup (map fst ps) /\
    (forall q, In q (map fst ps) <-> q <> [] /\ is_entry demo q = true).
Proof.
  split; [reflexivity|]. split; [reflexivity|].
  destruct (lines_match_file_and_directory_entries demo 4 "" demo_lines
              eq_refl eq_refl) as (ps & _ & Hl & Hn & Hc & _).
  exists ps. split; [exact Hl|]. split; [exact Hn | exact Hc].
Defined.

(** The claim C6 as stated, with every existing path below the root as a
    child, fails where a directory holds an entry that is neither a file
    nor a directory: the entry has no line. *)
Lemma dangling_entry_has_no_line :
  render with_dangling 2 [] "" = Return ["`-- a.txt"] /\
  ~ exists ps : list (list string * string),
      map snd ps = ["`-- a.txt"] /\
      NoDup (map fst ps) /\
      (forall q, In q (map fst ps) <-> q <> [] /\ resolve with_dangling q <> None).
Proof.
  split; [reflexivity|].
  intros (ps & Hl & _ & Hc).
  destruct ps as [|[x l] [|y ps]]; try discriminate.
  assert (Ha : In ["a.txt"] (map fst [(x, l)]))
    by (apply Hc; split; discriminate).
  assert (Hd : In ["dangling"] (map fst [(x, l)]))
    by (apply Hc; split; discriminate).
  simpl in Ha, Hd. destruct Ha as [Ha | []]. destruct Hd as [Hd | []].
  rewrite Ha in Hd. discriminate.
Qed.






(** * Further properties of the renderer *)

Section RenderMore.

Variable path : Type.
Variable OSError : Type.
Variable isfile : path -> bool.
Variable isdir : path -> bool.
Variable join : path -> string -> path.

Implicit Types rec : path -> string -> outcome OSError (list string).
Implicit Types listdir : path -> OSError + list string.

Lemma dirs_loop_ext rec rec0 directory prefix dirs todo output_lines :
  (forall d p, rec d p = rec0 d p) ->
  dirs_loop join rec directory prefix dirs todo output_lines
  = dirs_loop join rec0 directory prefix dirs todo output_lines.
Proof.
  intros Hrec; revert output_lines.
  induction todo as [|[i subdir] todo IH]; intros acc; simpl; [reflexivity|].
  rewrite Hrec. destruct (rec0 _ _); simpl; [apply IH | reflexivity | reflexivity].
Qed.

(** The renderer reads a listing only through its two filtered, sorted
    sublists. *)
Lemma print_ext listdir listdir0 :
  (forall d,
      match listdir d, listdir0 d with
      | inr names, inr names0 =>
          dirs_of isdir join d names = dirs_of isdir join d names0 /\
          files_of isfile join d names = files_of isfile join d names0
      | inl e, inl e0 => e = e0
      | _, _ => False
      end) ->
  forall fuel d prefix,
    print_directory_tree listdir isfile isdir join fuel d prefix
    = print_directory_tree listdir0 isfile isdir join fuel d prefix.
Proof.
  intros H fuel. induction fuel as [|fuel IH]; intros d prefix; [reflexivity|].
  rewrite !print_S. specialize (H d).
  destruct (listdir d) as [e|names], (listdir0 d) as [e0|names0];
    try contradiction; [now subst|].
  destruct H as [-> ->].
  now rewrite (dirs_loop_ext _ _ _ _ _ _ _ IH).
Qed.

Lemma sorted_Permutation_eq (names names0 : list string) :
  Permutation names names0 -> sorted names = sorted names0.
Proof.
  intros HP. apply sorted_unique; [apply sorted_StronglySorted|].
  eapply Permutation_trans; [exact HP | apply sorted_Permutation].
Qed.

Lemma filter_filter_implied (f keep : string -> bool) (l : list string) :
  (forall x, f x = true -> keep x = true) ->
  filter f (filter keep l) = filter f l.
Proof.
  intros H. induction l as [|x l IH]; simpl; [reflexivity|].
  destruct (keep x) eqn:Ek; simpl.
  - now rewrite IH.
  - destruct (f x) eqn:Ef; [|exact IH].
    apply H in Ef. congruence.
Qed.

Lemma filter_sorted_kept (f keep : string -> bool) (names : list string) :
  (forall x, f x = true -> keep x = true) ->
  filter f (sorted (filter keep names)) = filter f (sorted names).
Proof.
  intros H. apply StronglySorted_unique.
  - apply StronglySorted_filter, sorted_StronglySorted.
  - apply StronglySorted_filter, sorted_StronglySorted.
  - eapply Permutation_trans.
    + apply Permutation_filter, Permutation_sym, sorted_Permutation.
    + rewrite (filter_filter_implied _ _ _ H).
      apply Permutation_filter, sorted_Permutation.
Qed.

(** X1: the order in which [os.listdir] gives the names does not show:
    two filesystems whose listings agree up to the order of the names
    render alike, lines and errors, with every budget. *)
Theorem listing_order_is_irrelevant listdir listdir0 :
  (forall d, same_names (listdir d) (listdir0 d)) ->
  forall fuel d prefix,
    print_directory_tree listdir isfile isdir join fuel d prefix
    = print_directory_tree listdir0 isfile isdir join fuel d prefix.
Proof.
  intros H. apply print_ext. intros d. specialize (H d). unfold same_names in H.
  destruct (listdir d) as [e|names], (listdir0 d) as [e0|names0];
    try exact H.
  unfold dirs_of, files_of. now rewrite (sorted_Permutation_eq _ _ H).
Qed.

(** X2: names that neither [os.path.isfile] nor [os.path.isdir] accepts
    leave no trace: removing them from every listing changes nothing in
    what the renderer returns. *)
Theorem other_entries_are_ignored listdir listdir0 :
  (forall d,
      names_kept (fun entry => isfile (join d entry) || isdir (join d entry))
                 (listdir d) (listdir0 d)) ->
  forall fuel d prefix,
    print_directory_tree listdir isfile isdir join fuel d prefix
    = print_directory_tree listdir0 isfile isdir join fuel d prefix.
Proof.
  intros H. apply print_ext. intros d. specialize (H d). unfold names_kept in H.
  destruct (listdir d) as [e|names], (listdir0 d) as [e0|names0];
    try exact H.
  subst names0. unfold dirs_of, files_of. split; symmetry.
  - apply filter_sorted_kept. intros x Hx. rewrite Hx. apply orb_true_r.
  - apply filter_sorted_kept. intros x Hx. now rewrite Hx.
Qed.

End RenderMore.


Section RenderOrder.

Variable path : Type.
Variable OSError : Type.
Variable listdir : path -> OSError + list string.
Variable isfile : path -> bool.
Variable isdir : path -> bool.
Variable join : path -> string -> path.

Implicit Types rec : path -> string -> outcome OSError (list string).

Lemma dirs_loop_indent rec p directory prefix dirs todo output_lines :
  (forall d q, rec d (p +++ q) = outcome_map (map (String.append p)) (rec d q)) ->
  dirs_loop join rec directory (p +++ prefix) dirs todo
            (map (String.append p) output_lines)
  = outcome_map (map (String.append p))
                (dirs_loop join rec directory prefix dirs todo output_lines).
Proof.
  intros Hrec; revert output_lines.
  induction todo as [|[i subdir] todo IH]; intros acc; simpl; [reflexivity|].
  rewrite (append_assoc p prefix), Hrec.
  destruct (rec _ _) as [sub| |]; simpl; try reflexivity.
  rewrite <- IH. f_equal. rewrite !map_app. simpl.
  now rewrite !append_assoc.
Qed.

Lemma files_loop_indent p prefix files todo output_lines :
  files_loop (p +++ prefix) files todo (map (String.append p) output_lines)
  = map (String.append p) (files_loop prefix files todo output_lines).
Proof.
  revert output_lines; induction todo as [|[i file] todo IH]; intros acc; simpl;
    [reflexivity|].
  rewrite <- IH. f_equal. rewrite map_app. simpl. now rewrite !append_assoc.
Qed.

(** X3: the prefix only indents: a call with the prefix [p +++ prefix]
    behaves as the call with [prefix], and each line it returns is the
    corresponding line of that call with [p] in front. *)
Theorem prefix_only_indents fuel :
  forall d p prefix,
    print_directory_tree listdir isfile isdir join fuel d (p +++ prefix)
    = outcome_map (map (String.append p))
        (print_directory_tree listdir isfile isdir join fuel d prefix).
Proof.
  induction fuel as [|fuel IH]; intros d p prefix; [reflexivity|].
  rewrite !print_S. destruct (listdir d) as [e|names]; [reflexivity|].
  change (@nil string) with (map (String.append p) (@nil string)) at 1.
  rewrite dirs_loop_indent by (intros; apply IH).
  destruct (dirs_loop _ _ _ _ _ _ _) as [out| |]; simpl; try reflexivity.
  now rewrite files_loop_indent.
Qed.

Lemma nth_error_enumerate_inv {A} (l : list A) k i (x : A) :
  nth_error (enumerate l) k = Some (i, x) -> i = k /\ nth_error l k = Some x.
Proof.
  intros H. destruct (nth_error l k) as [y|] eqn:E.
  - rewrite (nth_error_enumerate _ _ _ E) in H. injection H as <- <-. auto.
  - apply nth_error_None in E.
    assert (G : nth_error (enumerate l) k = None).
    { apply nth_error_None. unfold enumerate.
      rewrite length_combine, length_seq. lia. }
    congruence.
Qed.

Lemma nth_error_cut {A} (l : list A) i (x : A) :
  nth_error l i = Some x -> l = firstn i l ++ x :: skipn (S i) l.
Proof.
  revert i; induction l as [|y l IH]; intros [|i] H; simpl in *; try discriminate.
  - now injection H as ->.
  - f_equal. now apply IH.
Qed.

Lemma dirs_loop_Raise_at rec directory prefix dirs done item rest subs
      output_lines e :
  returns_all join rec directory prefix (length dirs) done subs ->
  rec (join directory (snd item))
      (child_prefix prefix (length dirs) (fst item)) = Raise e ->
  dirs_loop join rec directory prefix dirs (done ++ item :: rest) output_lines
  = Raise e.
Proof.
  intros Hall Hr; revert output_lines.
  induction Hall as [|[i subdir] sub todo subs Hrec Hall IH]; intros acc; simpl.
  - destruct item as [i subdir]. simpl in Hr.
    unfold child_prefix, segment, last_index in Hr. now rewrite Hr.
  - unfold child_prefix, segment, last_index in Hrec. simpl in Hrec.
    rewrite Hrec. simpl. apply IH.
Qed.

(** X4: a call raises exactly when the listing of its directory raises,
    or when the recursive call on one of its subdirectories raises after
    the calls on all the subdirectories before it, in sorted order, have
    returned; the error is that one, whatever the later subdirectories
    and the files are. *)
Theorem first_failure_in_sorted_order_is_raised fuel d prefix e :
  print_directory_tree listdir isfile isdir join (S fuel) d prefix = Raise e <->
  listdir d = inl e \/
  exists names i subdir subs,
    listdir d = inr names /\
    nth_error (dirs_of isdir join d names) i = Some subdir /\
    returns_all join (print_directory_tree listdir isfile isdir join fuel)
                d prefix (length (dirs_of isdir join d names))
                (firstn i (enumerate (dirs_of isdir join d names))) subs /\
    print_directory_tree listdir isfile isdir join fuel (join d subdir)
      (child_prefix prefix (length (dirs_of isdir join d names)) i)
    = Raise e.
Proof.
  rewrite print_S. split.
  - destruct (listdir d) as [e0|names]; [intros H; injection H as ->; now left|].
    destruct (dirs_loop _ _ _ _ _ _ _) as [out|e0|] eqn:E; simpl;
      try discriminate.
    intros H; injection H as ->. right.
    destruct (dirs_loop_Raise _ _ _ _ _ _ _ _ _ _ E)
      as (done & [i subdir] & rest & subs & Htodo & Hall & Hr).
    assert (Hk : nth_error (enumerate (dirs_of isdir join d names)) (length done)
                 = Some (i, subdir)).
    { rewrite Htodo, nth_error_app2, Nat.sub_diag by lia. reflexivity. }
    apply nth_error_enumerate_inv in Hk. destruct Hk as [-> Hi].
    exists names, (length done), subdir, subs.
    repeat split; try assumption.
    rewrite Htodo, firstn_app, Nat.sub_diag, firstn_all. simpl.
    now rewrite app_nil_r.
  - intros [Hl | (names & i & subdir & subs & Hl & Hi & Hall & Hr)];
      rewrite Hl; [reflexivity|].
    rewrite (nth_error_cut _ _ _ (nth_error_enumerate _ _ _ Hi)).
    now rewrite (dirs_loop_Raise_at _ _ _ _ _ (i, subdir) _ _ _ _ Hall Hr).
Qed.

End RenderOrder.


(** * Further properties of the text sink *)

Lemma concat_String (sep : string) (c : ascii) (h : string) (t : list string) :
  String.concat sep (String c h :: t) = String c (String.concat sep (h :: t)).
Proof. destruct t; reflexivity. Qed.

(** Joining what [split] returns gives the text back. *)
Lemma join_split (s : string) : String.concat newline (split_newline s) = s.
Proof.
  induction s as [|c s IH]; [reflexivity|]. simpl.
  destruct (Ascii.eqb_spec c "010"%char) as [->|_].
  - destruct (split_newline s) as [|h t] eqn:E.
    + now destruct (proj1 (split_newline_parts s)).
    + change (String.concat newline ("" :: h :: t))
        with (String "010"%char (String.concat newline (h :: t))).
      now rewrite IH.
  - destruct (split_newline s) as [|h t] eqn:E.
    + now destruct (proj1 (split_newline_parts s)).
    + now rewrite concat_String, IH.
Qed.


(** X6: saving again the lines read back from the saved file leaves every
    file as it is, whatever the lines first saved were; the saving is the
    one of [text_sink_spec], which the calls of [save_to_text_file] that
    return bring about. *)
Theorem saving_what_was_read_changes_nothing (lines : list string)
        (filepath : string) (st : store) (text : string) :
  text_sink_spec lines filepath st filepath = Some text ->
  forall q,
    text_sink_spec (split_newline text) filepath
                   (text_sink_spec lines filepath st) q
    = text_sink_spec lines filepath st q.
Proof.
  unfold text_sink_spec. rewrite write_read. intros H q. injection H as <-.
  rewrite join_split. unfold write.
  destruct (String.eqb q filepath); reflexivity.
Qed.


(** * Runs of the sinks *)

Section SinkRuns.

Variable path : Type.
Variable exn : Type.

Implicit Types o : oracle path exn.
Implicit Types history ev : list (entry path exn).

Lemma exec_perform o history (c : call path) :
  exec o history (perform c)
  = match o history c with
    | inl e => (history ++ [Raised c e], Raise e)
    | inr v => (history ++ [Returned c (to_value c v)], Return v)
    end.
Proof. simpl. destruct (o history c); reflexivity. Qed.

Lemma exec_pbind {A B} o (p : prog path exn A) (f : A -> prog path exn B) :
  forall history,
    exec o history (pbind p f)
    = match exec o history p with
      | (h, Return a) => exec o h (f a)
      | (h, Raise e) => (h, Raise e)
      | (h, OutOfFuel) => (h, OutOfFuel)
      end.
Proof.
  induction p as [a|e| |c k IH]; intros history; simpl; try reflexivity.
  destruct (o history c) as [e|v]; apply IH.
Qed.

Lemma straight_Ret {A} (a : A) : straight (@Ret path exn A a) [].
Proof.
  intros o history. exists []. simpl. rewrite app_nil_r. auto.
Qed.

Lemma straight_perform (c : call path) : straight (@perform path exn c) [c].
Proof.
  intros o history. rewrite exec_perform.
  destruct (o history c) as [e|v]; simpl.
  - exists [Raised c e]. split; [reflexivity|].
    exists [], c, []. auto.
  - exists [Returned c (to_value c v)]. auto.
Qed.

Lemma straight_pbind {A B} (p : prog path exn A) (f : A -> prog path exn B)
      cs1 cs2 :
  straight p cs1 -> (forall a, straight (f a) cs2) ->
  straight (pbind p f) (cs1 ++ cs2).
Proof.
  intros Hp Hf o history. rewrite exec_pbind.
  destruct (Hp o history) as (ev1 & Hh & Hr).
  destruct (exec o history p) as [h1 [a|e|]]; simpl in *; subst h1.
  - destruct Hr as [Hc Ha].
    destruct (Hf a o (history ++ ev1)) as (ev2 & Hh2 & Hr2).
    exists (ev1 ++ ev2). split; [now rewrite Hh2, app_assoc|].
    destruct (snd (exec o (history ++ ev1) (f a))) as [b|e|]; simpl in *.
    + destruct Hr2 as [Hc2 Ha2].
      now rewrite map_app, forallb_app, Hc, Hc2, Ha, Ha2.
    + destruct Hr2 as (done & c & rest & -> & Hd & ->).
      exists (ev1 ++ done), c, rest.
      rewrite map_app, forallb_app, Ha, Hd, Hc, <- !app_assoc. auto.
    + exact Hr2.
  - destruct Hr as (done & c & rest & -> & Hd & ->).
    exists (done ++ [Raised c e]). split; [reflexivity|].
    exists done, c, (rest ++ cs2). rewrite <- app_assoc. auto.
  - contradiction.
Qed.

Lemma straight_for_each {A} (l : list A) (body : A -> prog path exn unit)
      (g : A -> call path) :
  (forall x, straight (body x) [g x]) ->
  straight (for_each l body) (map g l).
Proof.
  intros Hb. induction l as [|x l IH]; simpl.
  - apply straight_Ret.
  - apply (straight_pbind (body x) _ [g x] (map g l)); [apply Hb | intros; exact IH].
Qed.

Lemma save_to_pdf_straight (lines : list string) (filepath : path) :
  straight (@save_to_pdf path exn lines filepath) (pdf_calls lines filepath).
Proof.
  unfold save_to_pdf, pdf_calls.
  apply (straight_pbind _ _ [FPDF]);
    [exact (straight_perform FPDF) | intros _].
  apply (straight_pbind _ _ [pdf_add_page]);
    [exact (straight_perform pdf_add_page) | intros _].
  apply (straight_pbind _ _ [pdf_set_auto_page_break true 15]);
    [exact (straight_perform (pdf_set_auto_page_break true 15)) | intros _].
  apply (straight_pbind _ _ [pdf_set_font "Arial" 12]);
    [exact (straight_perform (pdf_set_font "Arial" 12)) | intros _].
  apply straight_pbind;
    [|intros _; exact (straight_perform (pdf_output filepath))].
  apply straight_for_each. intros line.
  apply (straight_pbind _ _ [pdf_cell 0 10 line LMARGIN NEXT] []);
    [exact (straight_perform (pdf_cell 0 10 line LMARGIN NEXT))
    | intros _; apply straight_Ret].
Qed.

(** X7: in every world, [save_to_pdf] goes in order through the
    constructor, [add_page], [set_auto_page_break(True, 15)],
    [set_font("Arial", 12)], one [cell] of height 10 per line, in the order
    of the lines, and [output]; it returns when all of them return, and
    when one raises it makes no further call and raises that exception, so
    that [output] is not called after a call that failed. *)
Theorem save_to_pdf_calls_in_order (lines : list string) (filepath : path)
        o history :
  exists ev,
    fst (exec o history (save_to_pdf lines filepath)) = history ++ ev /\
    follows (pdf_calls lines filepath) ev
            (snd (exec o history (save_to_pdf lines filepath))).
Proof. apply save_to_pdf_straight. Qed.

(** The runs of the text sink. *)
Lemma text_sink_runs (lines : list string) (filepath : path) o history :
  exists ev,
    fst (exec o history (save_to_text_file_calls lines filepath)) = history ++ ev /\
    ((exists e,
         ev = [Raised (open_ filepath "w" "utf-8") e] /\
         snd (exec o history (save_to_text_file_calls lines filepath)) = Raise e) \/
     (exists w c,
         ev = [Returned (open_ filepath "w" "utf-8") VNone; w; c] /\
         call_of w = f_write (String.concat newline lines) /\
         call_of c = f_close /\
         snd (exec o history (save_to_text_file_calls lines filepath))
         = match c, w with
           | Raised _ e, _ => Raise e
           | Returned _ _, Raised _ e => Raise e
           | Returned _ _, Returned _ _ => Return tt
           end)).
Proof.
  unfold save_to_text_file_calls, with_open. simpl.
  destruct (o history _) as [e|[]]; simpl.
  - eexists. split; [reflexivity|]. left. eauto.
  - destruct (o _ (f_write _)) as [e|z]; simpl;
      destruct (o _ f_close) as [e'|[]]; simpl;
      (eexists; split; [rewrite <- !app_assoc; reflexivity|]);
      right; do 2 eexists; (split; [reflexivity|]); auto.
Qed.

(** X8: in every world, [save_to_text_file] opens the file in mode [w]
    and, once the file is open, writes the joined lines and closes the
    file, also when the writing raises; it returns when the three calls
    return, and raises the exception of the closing when that raises, of
    the writing otherwise. *)
Theorem text_file_is_closed_in_every_run (lines : list string) (filepath : path)
        o history :
  exists ev,
    fst (exec o history (save_to_text_file_calls lines filepath)) = history ++ ev /\
    ((exists e,
         ev = [Raised (open_ filepath "w" "utf-8") e] /\
         snd (exec o history (save_to_text_file_calls lines filepath)) = Raise e) \/
     (exists w c,
         ev = [Returned (open_ filepath "w" "utf-8") VNone; w; c] /\
         call_of w = f_write (String.concat newline lines) /\
         call_of c = f_close /\
         snd (exec o history (save_to_text_file_calls lines filepath))
         = match c, w with
           | Raised _ e, _ => Raise e
           | Returned _ _, Raised _ e => Raise e
           | Returned _ _, Returned _ _ => Return tt
           end)).
Proof. apply text_sink_runs. Qed.

End SinkRuns.

(** The files after a run of the text sink that returns: the file at
    [filepath] holds the joined lines, the others are untouched. *)
Lemma text_sink_effect (exn : Type) (lines : list string) (filepath : string)
      (o : oracle string exn) history (st : store) :
  snd (exec o history (save_to_text_file_calls lines filepath)) = Return tt ->
  exists ev,
    fst (exec o history (save_to_text_file_calls lines filepath)) = history ++ ev /\
    forall q,
      file_effect ev st q = write filepath (String.concat newline lines) st q.
Proof.
  intros Hr.
  destruct (text_sink_runs string exn lines filepath o history)
    as (ev & Hh & [(e & _ & He) | (w & c & -> & Hw & Hc & Hres)]);
    [congruence|].
  exists [Returned (open_ filepath "w" "utf-8") VNone; w; c].
  split; [exact Hh|]. rewrite Hr in Hres.
  destruct c as [c vc|c e]; [|discriminate].
  destruct w as [w vw|w e]; [|discriminate].
  simpl in Hw, Hc. subst w c. intros q.
  unfold file_effect. simpl.
  rewrite write_read. unfold write. simpl.
  destruct (String.eqb q filepath); reflexivity.
Qed.

(** X9: when the three calls of [save_to_text_file] return, their effect
    on the files is the one of the sink as a function on stores: the file
    at [filepath] holds the joined lines, the others are untouched. *)
Theorem calls_refine_the_store_model (exn : Type) (lines : list string)
        (filepath : string) (o : oracle string exn) history (st : store) :
  snd (exec o history (save_to_text_file_calls lines filepath)) = Return tt ->
  exists ev,
    fst (exec o history (save_to_text_file_calls lines filepath)) = history ++ ev /\
    forall q, file_effect ev st q = text_sink_spec lines filepath st q.
Proof.
  intros Hr.
  destruct (text_sink_effect exn lines filepath o history st Hr)
    as (ev & Hh & Hq).
  exists ev. split; [exact Hh | exact Hq].
Qed.

(** C9: in every run of [save_to_text_file] that returns, in any world and
    whatever the files were, the file holds the lines joined by a
    newline; for a sequence that is not empty and whose lines hold no
    newline, splitting that text at the newlines gives the sequence
    back.  (A run in which opening, writing or closing raises leaves no
    such text.) *)
Theorem text_round_trip (exn : Type) (lines : list string) (filepath : string)
        (o : oracle string exn) history (st : store) :
  lines <> [] ->
  Forall (fun l => has_newline l = false) lines ->
  snd (exec o history (save_to_text_file_calls lines filepath)) = Return tt ->
  exists ev text,
    fst (exec o history (save_to_text_file_calls lines filepath)) = history ++ ev /\
    file_effect ev st filepath = Some text /\
    text = String.concat newline lines /\
    split_newline text = lines.
Proof.
  intros Hne Hall Hr.
  destruct (text_sink_effect exn lines filepath o history st Hr)
    as (ev & Hh & Hq).
  exists ev, (String.concat newline lines).
  split; [exact Hh|]. split; [rewrite Hq; apply write_read|].
  split; [reflexivity|]. now apply split_join.
Qed.

(** X5: in every run of [save_to_text_file] that returns, the lines read
    back from the saved file, by splitting its text at the newlines, are
    the lines saved exactly when the sequence saved is not empty and none
    of its lines holds a newline. *)
Theorem round_trip_exactly_when (exn : Type) (lines : list string)
        (filepath : string) (o : oracle string exn) history (st : store) :
  snd (exec o history (save_to_text_file_calls lines filepath)) = Return tt ->
  exists ev text,
    fst (exec o history (save_to_text_file_calls lines filepath)) = history ++ ev /\
    file_effect ev st filepath = Some text /\
    (split_newline text = lines <->
     lines <> [] /\ Forall (fun l => has_newline l = false) lines).
Proof.
  intros Hr.
  destruct (text_sink_effect exn lines filepath o history st Hr)
    as (ev & Hh & Hq).
  exists ev, (String.concat newline lines).
  split; [exact Hh|]. split; [rewrite Hq; apply write_read|]. split.
  - intros Hs. rewrite <- Hs at 1 2. apply split_newline_parts.
  - intros [Hne Hall]. now apply split_join.
Qed.


(** * Runs of [main] *)

Section MainFacts.

Variable path : Type.
Variable exn : Type.
Variable listdir : path -> exn + list string.
Variable isfile : path -> bool.
Variable isdir : path -> bool.
Variable join : path -> string -> path.
Variable name : path -> string.
Variable div : path -> string -> path.
Variable path_str : path -> string.
Variable exn_str : exn -> string.
Variable is_Exception : exn -> bool.
Variable strip : string -> string.
Variable lower : string -> string.

Implicit Types o : oracle path exn.
Implicit Types history ev trace : list (entry path exn).

Abbreviation the_main :=
  (main listdir isfile isdir join name div path_str exn_str is_Exception
        strip lower).
Abbreviation runs :=
  (main_run listdir isfile isdir join name div path_str exn_str is_Exception
            strip lower).

Lemma exec_lift {A} o history (r : outcome exn A) :
  exec o history (@lift path exn A r) = (history, r).
Proof. destruct r; reflexivity. Qed.

Lemma exec_try_except {A} o (body : prog path exn A) handler :
  forall history,
    exec o history (try_except is_Exception body handler)
    = match exec o history body with
      | (h, Raise e) =>
          if is_Exception e then exec o h (handler e) else (h, Raise e)
      | other => other
      end.
Proof.
  induction body as [a|e| |c k IH]; intros history; simpl.
  - reflexivity.
  - destruct (is_Exception e); reflexivity.
  - reflexivity.
  - destruct (o history c) as [e|v]; apply IH.
Qed.

Lemma exec_save o history choice (lines : list string) (filepath : path) :
  choice = "p" \/ choice = "t" ->
  exists ev,
    fst (exec o history
              (if String.eqb choice "p" then save_to_pdf lines filepath
               else if String.eqb choice "t"
                    then save_to_text_file_calls lines filepath
                    else Ret tt)) = history ++ ev /\
    save_run choice lines filepath ev
      (snd (exec o history
              (if String.eqb choice "p" then save_to_pdf lines filepath
               else if String.eqb choice "t"
                    then save_to_text_file_calls lines filepath
                    else Ret tt))).
Proof.
  intros [-> | ->]; simpl String.eqb; cbv iota.
  - destruct (save_to_pdf_straight path exn lines filepath o history)
      as (ev & Hh & Hf).
    exists ev. split; [exact Hh|]. left. auto.
  - destruct (text_sink_runs path exn lines filepath o history)
      as (ev & Hh & Hr).
    exists ev. split; [exact Hh|]. right. split; [reflexivity | exact Hr].
Qed.

Lemma exec_main o fuel :
  runs fuel (fst (exec o [] (the_main fuel))) (snd (exec o [] (the_main fuel))).
Proof.
  unfold main.
  rewrite exec_pbind, exec_perform.
  destruct (o [] Path_cwd) as [e|root]; [apply run_cwd_raised|].
  rewrite exec_pbind, exec_perform.
  destruct (o _ (print_ _)) as [e|[]]; [apply run_header_raised|].
  rewrite exec_pbind, exec_lift.
  fold (rendered listdir isfile isdir join fuel root).
  destruct (rendered listdir isfile isdir join fuel root) as [lines|e|] eqn:Hr;
    [|now apply run_render_raised|now apply run_render_exhausted].
  rewrite exec_pbind, exec_perform.
  destruct (o _ (print_ _)) as [e|[]]; [now apply run_listing_raised|].
  rewrite exec_pbind, exec_perform.
  destruct (o _ (input_ _)) as [e|answer]; [now apply run_prompt_raised|].
  cbv beta zeta.
  destruct (negb (existsb (String.eqb (lower (strip answer))) ["p"; "t"]))
    eqn:Ec.
  - assert (Hno : ~ wants_save strip lower answer).
    { apply negb_true_iff in Ec. intros [H | H]; rewrite H in Ec; discriminate. }
    rewrite exec_pbind, exec_perform.
    destruct (o _ (print_ _)) as [e|[]].
    + now apply run_cancelled with (en := Raised (print_ "Operation canceled.") e).
    + now apply run_cancelled with (en := Returned (print_ "Operation canceled.") VNone).
  - assert (Hyes : wants_save strip lower answer).
    { apply negb_false_iff in Ec. simpl in Ec. rewrite orb_false_r in Ec.
      apply orb_true_iff in Ec. unfold wants_save.
      destruct Ec as [H | H]; apply String.eqb_eq in H; auto. }
    rewrite exec_pbind, exec_perform.
    destruct (o _ Path_home) as [e|home]; [now apply run_home_raised|].
    rewrite exec_pbind, exec_perform.
    destruct (o _ (Path_mkdir _ _ _)) as [e|[]]; [now apply run_mkdir_raised|].
    rewrite exec_pbind, exec_try_except, exec_pbind.
    match goal with
    | |- context [exec o ?h (if String.eqb ?c "p" then save_to_pdf ?l ?f else _)] =>
        destruct (exec_save o h c l f Hyes) as (ev & Hh & Hs);
        destruct (exec o h (if String.eqb c "p" then save_to_pdf l f
                            else if String.eqb c "t"
                                 then save_to_text_file_calls l f
                                 else Ret tt)) as [h' r'] eqn:E
    end.
    simpl in Hh, Hs. subst h'.
    destruct r' as [[]|e|].
    + cbn [exec]. rewrite exec_pbind, exec_perform.
      destruct (o _ (print_ _)) as [e|[]].
      { cbn [fst snd app]; rewrite <- ?app_assoc; now apply run_saved_message_raised. }
      rewrite exec_pbind, exec_perform.
      destruct (o _ (input_ _)) as [e|answer2].
      { cbn [fst snd app]; rewrite <- ?app_assoc; now apply run_open_prompt_raised. }
      cbv beta zeta.
      destruct (String.eqb_spec (lower (strip answer2)) "y") as [Hy|Hy].
      * rewrite exec_pbind, exec_perform.
        destruct (o _ (webbrowser_open _)) as [e|b].
        -- cbn [fst snd app]; rewrite <- ?app_assoc; now apply run_opened with (en := Raised (webbrowser_open _) e).
        -- cbn [fst snd app]; rewrite <- ?app_assoc; now apply run_opened with (en := Returned (webbrowser_open _) (VBool b)).
      * cbn [fst snd app]; rewrite <- ?app_assoc; now apply run_not_opened.
    + destruct (is_Exception e) eqn:Ee.
      * rewrite exec_pbind, exec_perform.
        destruct (o _ (print_ _)) as [e'|[]].
        -- cbn [fst snd app]; rewrite <- ?app_assoc; now apply run_save_reported with (e := e) (en := Raised (print_ _) e').
        -- cbn [fst snd app]; rewrite <- ?app_assoc; now apply run_save_reported with (e := e) (en := Returned (print_ _) VNone).
      * cbn [fst snd app]; rewrite <- ?app_assoc; now apply run_save_escaped.
    + destruct Hs as [[_ []] | [_ [(e & _ & He) | (w & c & _ & _ & _ & He)]]];
        try discriminate.
      destruct c, w; discriminate.
Qed.

Lemma exec_main_run o fuel trace r :
  exec o [] (the_main fuel) = (trace, r) -> runs fuel trace r.
Proof.
  intros H. pose proof (exec_main o fuel) as G. now rewrite H in G.
Qed.

Lemma follows_incl {R} (cs : list (call path)) ev (r : outcome exn R) :
  follows cs ev r -> incl (map (@call_of path exn) ev) cs.
Proof.
  destruct r as [a|e|]; simpl.
  - intros [<- _]. apply incl_refl.
  - intros (done & c & rest & -> & _ & ->). rewrite map_app. simpl.
    intros x Hx. apply in_app_iff in Hx. apply in_app_iff.
    destruct Hx as [Hx | [<- | []]]; [now left | right; now left].
  - contradiction.
Qed.

Lemma text_run_calls lines (filepath : path) ev r :
  text_run lines filepath ev r ->
  incl (map (@call_of path exn) ev)
       [open_ filepath "w" "utf-8"; f_write (String.concat newline lines); f_close].
Proof.
  intros [(e & -> & _) | (w & c & -> & Hw & Hc & _)]; simpl.
  - intros x [<- | []]. now left.
  - rewrite Hw, Hc. apply incl_refl.
Qed.

Lemma pdf_calls_save lines (filepath : path) c :
  In c (pdf_calls lines filepath) -> is_save_call c = true.
Proof.
  unfold pdf_calls. rewrite !in_app_iff, in_map_iff. simpl.
  intros [[<- | [<- | [<- | [<- | []]]]] | [(line & <- & _) | [<- | []]]];
    reflexivity.
Qed.

Lemma save_run_calls choice lines (filepath : path) ev r en :
  save_run choice lines filepath ev r -> In en ev ->
  is_save_call (call_of en) = true.
Proof.
  intros [[_ Hf] | [_ Ht]] Hin; apply (in_map (@call_of path exn)) in Hin.
  - apply follows_incl in Hf. eapply pdf_calls_save, Hf, Hin.
  - apply text_run_calls in Ht. apply Ht in Hin. simpl in Hin.
    destruct Hin as [<- | [<- | [<- | []]]]; reflexivity.
Qed.

Lemma save_run_returned choice lines (filepath : path) ev en :
  save_run choice lines filepath ev (Return tt) -> In en ev ->
  returned en = true.
Proof.
  intros [[_ [_ Hf]] | [_ [(e & _ & He) | (w & c & -> & _ & _ & Hr)]]] Hin.
  - rewrite forallb_forall in Hf. now apply Hf.
  - discriminate.
  - destruct c as [c vc|c e]; [|discriminate].
    destruct w as [w vw|w e]; [|discriminate].
    simpl in Hin. destruct Hin as [<- | [<- | [<- | []]]]; reflexivity.
Qed.

Lemma save_run_raise_origin choice lines (filepath : path) ev e :
  save_run choice lines filepath ev (Raise e) -> exists c, In (Raised c e) ev.
Proof.
  intros [[_ (done & c & rest & -> & _)] | [_ [(e0 & -> & He) | (w & c & -> & _ & _ & Hr)]]].
  - exists c. apply in_or_app. right. now left.
  - injection He as <-. eexists. now left.
  - destruct c as [c vc|c e0].
    + destruct w as [w vw|w e0]; [discriminate|]. injection Hr as <-.
      exists w. simpl. auto.
    + injection Hr as <-. exists c. simpl. auto.
Qed.

Lemma ends_one {A} (x : A) : exists before, [x] = before ++ [x].
Proof. now exists []. Qed.

Lemma ends_cons {A} (a : A) l x :
  (exists before, l = before ++ [x]) -> exists before, a :: l = before ++ [x].
Proof. intros [b ->]. now exists (a :: b). Qed.

Lemma ends_app {A} (l1 l : list A) x :
  (exists before, l = before ++ [x]) -> exists before, l1 ++ l = before ++ [x].
Proof. intros [b ->]. exists (l1 ++ b). now rewrite app_assoc. Qed.

Ltac ends := repeat first [apply ends_one | apply ends_cons | apply ends_app].

(** Taking a membership in a log apart. *)
Ltac in_log H :=
  unfold until_save, until_choice, until_render in H;
  repeat rewrite ?map_app, ?in_app_iff in H; simpl in H;
  repeat match type of H with
         | _ \/ _ => destruct H as [H | H]
         | False => contradiction
         end.

(** The ways a run can end, one goal for each. *)
Ltac run_cases H :=
  destruct H as [e0|root0 e0|root0 e0 Hr|root0 Hr|root0 lines0 e0 Hr
                |root0 lines0 e0 Hr
                |root0 lines0 answer0 en Hr Hno Hen|root0 lines0 answer0 e0 Hr Hyes
                |root0 lines0 answer0 home0 e0 Hr Hyes
                |root0 lines0 answer0 home0 ev e0 Hr Hyes Hs He
                |root0 lines0 answer0 home0 ev e0 en Hr Hyes Hs He Hen
                |root0 lines0 answer0 home0 ev e0 Hr Hyes Hs
                |root0 lines0 answer0 home0 ev e0 Hr Hyes Hs
                |root0 lines0 answer0 home0 ev answer2 Hr Hyes Hs Hn
                |root0 lines0 answer0 home0 ev answer2 en Hr Hyes Hs Hy Hen].

(** A call that is not a call of the sinks is not in the log of a sink. *)
Ltac not_in_save :=
  exfalso;
  match goal with
  | Hs : save_run _ _ _ ?ev _, Hev : In _ ?ev |- _ =>
      let G := fresh in
      pose proof (save_run_calls _ _ _ _ _ _ Hs Hev) as G;
      simpl in G; congruence
  | Hs : save_run _ _ _ ?ev _, Hev : In _ (map _ ?ev) |- _ =>
      let G := fresh in
      let en := fresh in
      let E := fresh in
      apply in_map_iff in Hev; destruct Hev as (en & E & Hev);
      pose proof (save_run_calls _ _ _ _ _ _ Hs Hev) as G;
      rewrite E in G; simpl in G; congruence
  end.

(** X10: an exception raised by a call that is not one of the calls of the
    two sinks is not caught: it ends the run and is the outcome of
    [main]. *)
Theorem only_saving_errors_are_caught o fuel trace r c e :
  exec o []
       (main listdir isfile isdir join name div path_str exn_str is_Exception
             strip lower fuel) = (trace, r) ->
  In (Raised c e) trace ->
  is_save_call c = false ->
  r = Raise e /\ exists before, trace = before ++ [Raised c e].
Proof.
  intros H Hin Hc. apply exec_main_run in H.
  run_cases H; in_log Hin; try discriminate;
    try (injection Hin as <- <-);
    try not_in_save;
    try (subst en; simpl);
    (split; [reflexivity|]);
    ends.
Qed.

(** X11: when the answer to the first prompt, stripped and lowered, is
    neither [p] nor [t], the run is the five calls that read the current
    directory, print the header and the listing, prompt, and print
    [Operation canceled.]: no directory is made, no file written, nothing
    opened. *)
Theorem cancelling_touches_nothing o fuel trace r answer :
  exec o []
       (main listdir isfile isdir join name div path_str exn_str is_Exception
             strip lower fuel) = (trace, r) ->
  In (Returned (input_ save_prompt) (VStr answer)) trace ->
  lower (strip answer) <> "p" ->
  lower (strip answer) <> "t" ->
  exists root lines en,
    print_directory_tree listdir isfile isdir join fuel root "" = Return lines /\
    trace = [Returned Path_cwd (VPath root);
             Returned (print_ (header (name root))) VNone;
             Returned (print_ (String.concat newline lines)) VNone;
             Returned (input_ save_prompt) (VStr answer);
             en] /\
    call_of en = print_ "Operation canceled." /\
    r = result_of en.
Proof.
  intros H Hin Hp Ht. apply exec_main_run in H.
  run_cases H; in_log Hin; try discriminate; try not_in_save;
    try (subst en; discriminate);
    try (injection Hin as Hin; vm_compute in Hin; discriminate);
    injection Hin as ->;
    try (exfalso; destruct Hyes; contradiction).
  exists root0, lines0, en. auto.
Qed.

(** X12: when the renderer raises on the current directory, [main] does
    nothing after printing the header: there is no listing, no prompt and
    no file, and the error of the renderer is the outcome of [main]. *)
Theorem traversal_error_ends_main o fuel trace r root e :
  exec o []
       (main listdir isfile isdir join name div path_str exn_str is_Exception
             strip lower fuel) = (trace, r) ->
  In (Returned Path_cwd (VPath root)) trace ->
  print_directory_tree listdir isfile isdir join fuel root "" = Raise e ->
  exists en,
    trace = [Returned Path_cwd (VPath root); en] /\
    call_of en = print_ (header (name root)) /\
    r = match en with
        | Returned _ _ => Raise e
        | Raised _ e' => Raise e'
        end.
Proof.
  intros H Hin Hraise. apply exec_main_run in H.
  run_cases H; in_log Hin; try discriminate; try not_in_save;
    try (subst en; discriminate);
    injection Hin as ->;
    try (unfold rendered in Hr; congruence).
  - eexists. split; [reflexivity|]. auto.
  - unfold rendered in Hr. rewrite Hraise in Hr. injection Hr as ->.
    eexists. split; [reflexivity|]. auto.
Qed.

Lemma save_run_saved choice lines (filepath : path) ev :
  save_run choice lines filepath ev (Return tt) ->
  (exists v, In (Returned (pdf_output filepath) v) ev) \/
  In (Returned (open_ filepath "w" "utf-8") VNone) ev.
Proof.
  intros [[_ [Hc Ha]] | [_ [(e & _ & E) | (w & c & -> & _)]]].
  - left.
    assert (Hin : In (pdf_output filepath) (map (@call_of path exn) ev)).
    { rewrite Hc. unfold pdf_calls. rewrite !in_app_iff. right. right. now left. }
    apply in_map_iff in Hin. destruct Hin as (en & E & Hin).
    rewrite forallb_forall in Ha. specialize (Ha _ Hin).
    destruct en as [c v|c e]; [|discriminate]. simpl in E. subst c. eauto.
  - discriminate.
  - right. now left.
Qed.

Lemma save_run_all_returned choice lines (filepath : path) ev :
  save_run choice lines filepath ev (Return tt) ->
  forallb (@returned path exn) ev = true.
Proof.
  intros Hs. apply forallb_forall. intros en Hin.
  eapply save_run_returned; eassumption.
Qed.

(** X13: the browser is opened only at the very end of a run in which
    every earlier call returned, among them the [output] of the document
    or the opening of the text file at the path that is then opened, and
    after the success message for that path and the answer [y], stripped
    and lowered, to the second prompt. *)
Theorem browser_opens_only_a_saved_file o fuel trace r p :
  exec o []
       (main listdir isfile isdir join name div path_str exn_str is_Exception
             strip lower fuel) = (trace, r) ->
  In (webbrowser_open p) (map (@call_of path exn) trace) ->
  exists before answer2 en,
    trace = before
            ++ [Returned (print_ (saved_message path_str p)) VNone;
                Returned (input_ open_prompt) (VStr answer2);
                en] /\
    call_of en = webbrowser_open p /\
    lower (strip answer2) = "y" /\
    r = result_of en /\
    forallb (@returned path exn) before = true /\
    ((exists v, In (Returned (pdf_output p) v) before) \/
     In (Returned (open_ p "w" "utf-8") VNone) before).
Proof.
  intros H Hin. apply exec_main_run in H.
  run_cases H; in_log Hin; try discriminate; try not_in_save;
    try (rewrite Hen in Hin; discriminate).
  rewrite Hen in Hin. injection Hin as <-.
  exists (@until_save path exn name div root0 lines0 answer0 home0 ++ ev), answer2, en.
  split; [now rewrite <- app_assoc|].
  split; [exact Hen|]. split; [exact Hy|]. split; [reflexivity|].
  split.
  - rewrite forallb_app, (save_run_all_returned _ _ _ _ Hs). reflexivity.
  - destruct (save_run_saved _ _ _ _ Hs) as [[v Hv] | Hv].
    + left. exists v. apply in_or_app. now right.
    + right. apply in_or_app. now right.
Qed.

(** X14: when a call of a sink raises, the second prompt is never shown
    and the browser never opened; the exception that leaves the sink was
    raised by one of its calls and, when it derives from [Exception], it is
    caught: the last call of the run prints the error message with it and
    [main] ends as that call does; otherwise it is the outcome of
    [main]. *)
Theorem saving_error_is_reported o fuel trace r c e :
  exec o []
       (main listdir isfile isdir join name div path_str exn_str is_Exception
             strip lower fuel) = (trace, r) ->
  In (Raised c e) trace ->
  is_save_call c = true ->
  ~ In (input_ open_prompt) (map (@call_of path exn) trace) /\
  (forall p, ~ In (webbrowser_open p) (map (@call_of path exn) trace)) /\
  exists c' e',
    In (Raised c' e') trace /\
    is_save_call c' = true /\
    if is_Exception e'
    then exists before en,
        trace = before ++ [en] /\
        call_of en = print_ (save_error exn_str e') /\
        r = result_of en
    else r = Raise e'.
Proof.
  intros H Hin Hc. apply exec_main_run in H.
  run_cases H; in_log Hin; try discriminate;
    try (injection Hin as <- <-; discriminate);
    try (subst en; simpl in Hen; subst c; discriminate);
    try (pose proof (save_run_returned _ _ _ _ _ Hs Hin); discriminate).
  - split; [|split].
    + intros G. in_log G; try discriminate; try not_in_save.
    + intros p G. in_log G; try discriminate; try not_in_save.
    + destruct (save_run_raise_origin _ _ _ _ _ Hs) as [c' Hc'].
      exists c', e0. split; [|split].
      * apply in_or_app. now right.
      * apply (save_run_calls _ _ _ _ _ _ Hs Hc').
      * now rewrite He.
  - split; [|split].
    + intros G. in_log G; try discriminate; try not_in_save;
        try (rewrite Hen in G; discriminate).
    + intros p G. in_log G; try discriminate; try not_in_save;
        try (rewrite Hen in G; discriminate).
    + destruct (save_run_raise_origin _ _ _ _ _ Hs) as [c' Hc'].
      exists c', e0. split; [|split].
      * apply in_or_app. right. apply in_or_app. now left.
      * apply (save_run_calls _ _ _ _ _ _ Hs Hc').
      * rewrite He. eexists. exists en.
        split; [rewrite app_assoc; reflexivity|]. auto.
Qed.

Lemma save_run_incl choice lines (filepath : path) ev r c :
  save_run choice lines filepath ev r ->
  In c (map (@call_of path exn) ev) ->
  (choice = "p" /\ In c (pdf_calls lines filepath)) \/
  (choice = "t" /\
   In c [open_ filepath "w" "utf-8"; f_write (String.concat newline lines);
         f_close]).
Proof.
  intros [[Hp Hf] | [Ht Hr]] Hin.
  - left. split; [exact Hp|]. eapply follows_incl; eassumption.
  - right. split; [exact Ht|]. eapply text_run_calls; eassumption.
Qed.

Lemma In_pdf_calls lines (filepath : path) c :
  In c (pdf_calls lines filepath) ->
  c = FPDF \/ c = pdf_add_page \/ c = pdf_set_auto_page_break true 15 \/
  c = pdf_set_font "Arial" 12 \/
  (exists line, In line lines /\ c = pdf_cell 0 10 line LMARGIN NEXT) \/
  c = pdf_output filepath.
Proof.
  unfold pdf_calls. rewrite !in_app_iff, in_map_iff. simpl.
  intros [[<- | [<- | [<- | [<- | []]]]] | [(line & <- & Hl) | [<- | []]]];
    eauto 10.
Qed.

(** X15: what the sinks are given is the listing that was printed: the text
    written to the text file is the very text printed, the joined lines
    the renderer returned for the current directory, and every cell of
    the document holds one of these lines. *)
Theorem saved_lines_are_the_printed_lines o fuel trace r :
  exec o []
       (main listdir isfile isdir join name div path_str exn_str is_Exception
             strip lower fuel) = (trace, r) ->
  (forall text,
      In (f_write text) (map (@call_of path exn) trace) ->
      exists root lines,
        In (Returned Path_cwd (VPath root)) trace /\
        print_directory_tree listdir isfile isdir join fuel root ""
        = Return lines /\
        text = String.concat newline lines /\
        In (Returned (print_ text) VNone) trace) /\
  (forall w h line x y,
      In (pdf_cell w h line x y) (map (@call_of path exn) trace) ->
      exists root lines,
        In (Returned Path_cwd (VPath root)) trace /\
        print_directory_tree listdir isfile isdir join fuel root ""
        = Return lines /\
        In line lines /\
        In (Returned (print_ (String.concat newline lines)) VNone) trace).
Proof.
  intros H. apply exec_main_run in H. split.
  - intros text Hin.
    run_cases H; in_log Hin; try discriminate;
      try (rewrite Hen in Hin; discriminate);
      (destruct (save_run_incl _ _ _ _ _ _ Hs Hin) as [[_ G] | [_ G]];
       [apply In_pdf_calls in G;
        destruct G as [G | [G | [G | [G | [(l & _ & G) | G]]]]]; discriminate
       |simpl in G; destruct G as [G | [G | [G | []]]]; try discriminate]);
      injection G as <-; exists root0, lines0;
      (split; [now left|]); (split; [exact Hr|]); (split; [reflexivity|]);
      right; right; now left.
  - intros w h line x y Hin.
    run_cases H; in_log Hin; try discriminate;
      try (rewrite Hen in Hin; discriminate);
      (destruct (save_run_incl _ _ _ _ _ _ Hs Hin) as [[_ G] | [_ G]];
       [apply In_pdf_calls in G;
        destruct G as [G | [G | [G | [G | [(l & Hl & G) | G]]]]];
        try discriminate
       |simpl in G; destruct G as [G | [G | [G | []]]]; discriminate]);
      injection G as _ _ <- _ _; exists root0, lines0;
      (split; [now left|]); (split; [exact Hr|]); (split; [exact Hl|]);
      right; right; now left.
Qed.

(** X16: the document is written with [output], and the text file opened,
    only when the answer to the first prompt, stripped and lowered, is [p],
    respectively [t], and only at the path [name.pdf], respectively
    [name.txt], in [Documents/pps] under the home directory, [name] being
    the name of the current directory; the call that makes that directory
    has returned. *)
Theorem file_goes_under_documents o fuel trace r c p mode encoding :
  exec o []
       (main listdir isfile isdir join name div path_str exn_str is_Exception
             strip lower fuel) = (trace, r) ->
  In c (map (@call_of path exn) trace) ->
  c = pdf_output p \/ c = open_ p mode encoding ->
  exists root answer home,
    In (Returned Path_cwd (VPath root)) trace /\
    In (Returned (input_ save_prompt) (VStr answer)) trace /\
    In (Returned Path_home (VPath home)) trace /\
    In (Returned (Path_mkdir (div (div home "Documents") "pps") true true) VNone)
       trace /\
    ((c = pdf_output p /\ lower (strip answer) = "p" /\
      p = div (div (div home "Documents") "pps") (name root +++ "." +++ "pdf")) \/
     (c = open_ p "w" "utf-8" /\ lower (strip answer) = "t" /\
      p = div (div (div home "Documents") "pps") (name root +++ "." +++ "txt"))).
Proof.
  intros H Hin Hc. apply exec_main_run in H.
  run_cases H; in_log Hin;
    try (destruct Hc; subst c; discriminate);
    try (rewrite Hen in Hin; destruct Hc; subst c; discriminate);
    (destruct (save_run_incl _ _ _ _ _ _ Hs Hin) as [[Hch G] | [Hch G]];
     [apply In_pdf_calls in G;
      destruct G as [G | [G | [G | [G | [(l & Hl & G) | G]]]]];
      try (destruct Hc; subst c; discriminate)
     |simpl in G; destruct G as [G | [G | [G | []]]];
      try (destruct Hc; subst c; discriminate)]);
    exists root0, answer0, home0;
    (split; [now left|]);
    (split; [right; right; right; now left|]);
    (split; [right; right; right; right; now left|]);
    (split; [right; right; right; right; right; now left|]);
    unfold file_path, documents_dir in G; rewrite Hch in G; simpl in G;
    (destruct Hc as [Hc | Hc]; rewrite Hc in G; try discriminate;
     inversion G; subst; auto).
Qed.

End MainFacts.


(** * The further properties on concrete inputs *)

Lemma listing_order_is_irrelevant_witness :
  (forall d, same_names (two_files true d) (two_files false d)) /\
  print_directory_tree (two_files true) is_txt (fun _ => false) t_join 1 [] ""
  = print_directory_tree (two_files false) is_txt (fun _ => false) t_join 1 [] "".
Proof.
  assert (H : forall d, same_names (two_files true d) (two_files false d)).
  { intros [|x d]; simpl; [apply perm_swap | reflexivity]. }
  split; [exact H|].
  exact (listing_order_is_irrelevant _ _ is_txt (fun _ => false) t_join
           (two_files true) (two_files false) H 1 [] "").
Defined.

Lemma other_entries_are_ignored_witness :
  (forall d,
      names_kept (fun entry => is_txt (t_join d entry) || false)
                 (with_pipe true d) (with_pipe false d)) /\
  print_directory_tree (with_pipe true) is_txt (fun _ => false) t_join 1 [] ""
  = Return ["`-- a.txt"].
Proof.
  assert (H : forall d,
             names_kept (fun entry => is_txt (t_join d entry) || false)
                        (with_pipe true d) (with_pipe false d)).
  { intros [|x d]; reflexivity. }
  split; [exact H|].
  rewrite (other_entries_are_ignored _ _ is_txt (fun _ => false) t_join
             (with_pipe true) (with_pipe false) H 1 [] "").
  reflexivity.
Defined.

Lemma saving_what_was_read_changes_nothing_witness :
  text_sink_spec [] "tree.txt" no_files "tree.txt" = Some "" /\
  forall q,
    text_sink_spec (split_newline "") "tree.txt"
                   (text_sink_spec [] "tree.txt" no_files) q
    = text_sink_spec [] "tree.txt" no_files q.
Proof.
  split; [reflexivity|].
  exact (saving_what_was_read_changes_nothing [] "tree.txt" no_files "" eq_refl).
Defined.

Lemma calls_refine_the_store_model_witness :
  snd (exec text_world []
            (save_to_text_file_calls ["|-- a.txt"; "`-- b.txt"] "tree.txt"))
  = Return tt /\
  exists ev,
    fst (exec text_world []
              (save_to_text_file_calls ["|-- a.txt"; "`-- b.txt"] "tree.txt"))
    = [] ++ ev /\
    forall q,
      file_effect ev no_files q
      = text_sink_spec ["|-- a.txt"; "`-- b.txt"] "tree.txt" no_files q.
Proof.
  split; [reflexivity|].
  exact (calls_refine_the_store_model oserror ["|-- a.txt"; "`-- b.txt"]
           "tree.txt" text_world [] no_files eq_refl).
Defined.


Lemma only_saving_errors_are_caught_witness :
  In (Raised (Path_mkdir ["home"; "user"; "Documents"; "pps"] true true)
             (PermissionError []))
     (fst (in_proj "t" "y" mkdir_fails)) /\
  snd (in_proj "t" "y" mkdir_fails) = Raise (PermissionError []).
Proof.
  assert (Hin : In (Raised (Path_mkdir ["home"; "user"; "Documents"; "pps"]
                                       true true) (PermissionError []))
                   (fst (in_proj "t" "y" mkdir_fails)))
    by (do 5 right; left; reflexivity).
  split; [exact Hin|].
  exact (proj1 (only_saving_errors_are_caught _ _ _ _ _ _ _ _ _ _ _ _ _ _ _ _ _ _ _
                  (surjective_pairing (in_proj "t" "y" mkdir_fails))
                  Hin eq_refl)).
Defined.

Lemma cancelling_touches_nothing_witness :
  In (Returned (input_ save_prompt) (VStr "c"))
     (fst (in_proj "c" "" no_failure)) /\
  exists root lines en,
    fst (in_proj "c" "" no_failure)
    = [Returned Path_cwd (VPath root);
       Returned (print_ (header (last root ""))) VNone;
       Returned (print_ (String.concat newline lines)) VNone;
       Returned (input_ save_prompt) (VStr "c");
       en] /\
    call_of en = print_ "Operation canceled.".
Proof.
  assert (Hin : In (Returned (input_ save_prompt) (VStr "c"))
                   (fst (in_proj "c" "" no_failure)))
    by (do 3 right; left; reflexivity).
  split; [exact Hin|].
  destruct (cancelling_touches_nothing _ _ _ _ _ _ _ _ _ _ _ _ _ _ _ _ _ _
              (surjective_pairing (in_proj "c" "" no_failure)) Hin)
    as (root & lines & en & _ & Ht & Hen & _); try discriminate.
  exists root, lines, en. split; [exact Ht | exact Hen].
Defined.

Lemma traversal_error_ends_main_witness :
  In (Returned Path_cwd (VPath ["secret"])) (fst in_secret) /\
  render demo_home 3 ["secret"] "" = Raise (PermissionError ["secret"]) /\
  exists en,
    fst in_secret = [Returned Path_cwd (VPath ["secret"]); en] /\
    call_of en = print_ (header "secret").
Proof.
  assert (Hin : In (Returned Path_cwd (VPath ["secret"])) (fst in_secret))
    by (left; reflexivity).
  split; [exact Hin|]. split; [reflexivity|].
  destruct (traversal_error_ends_main _ _ _ _ _ _ _ _ _ _ _ _ _ _ _ _ _ _ _
              (surjective_pairing in_secret) Hin
              (eq_refl : render demo_home 3 ["secret"] ""
                         = Raise (PermissionError ["secret"])))
    as (en & Ht & Hen & _).
  exists en. split; [exact Ht | exact Hen].
Defined.

Lemma browser_opens_only_a_saved_file_witness :
  In (webbrowser_open proj_txt)
     (map (@call_of (list string) oserror) (fst (in_proj "t" "y" no_failure))) /\
  exists before,
    forallb (@returned (list string) oserror) before = true /\
    In (Returned (open_ proj_txt "w" "utf-8") VNone) before.
Proof.
  assert (Hin : In (webbrowser_open proj_txt)
                   (map (@call_of (list string) oserror)
                        (fst (in_proj "t" "y" no_failure))))
    by (do 11 right; left; reflexivity).
  split; [exact Hin|].
  destruct (browser_opens_only_a_saved_file _ _ _ _ _ _ _ _ _ _ _ _ _ _ _ _ _ _
              (surjective_pairing (in_proj "t" "y" no_failure)) Hin)
    as (before & answer2 & en & Ht & _ & _ & _ & Hb & Hs).
  exists before. split; [exact Hb|].
  destruct Hs as [[v Hv] | Hs]; [|exact Hs].
  exfalso.
  assert (G : In (pdf_output proj_txt)
                 (map (@call_of (list string) oserror)
                      (fst (in_proj "t" "y" no_failure)))).
  { rewrite Ht, map_app. apply in_or_app. left.
    apply (in_map (@call_of (list string) oserror)) in Hv. exact Hv. }
  vm_compute in G.
  repeat (destruct G as [G | G]; [discriminate|]). exact G.
Defined.

Lemma saving_error_is_reported_witness :
  In (Raised (pdf_output proj_pdf) (PermissionError []))
     (fst (in_proj "p" "y" output_fails)) /\
  ~ In (input_ open_prompt)
       (map (@call_of (list string) oserror)
            (fst (in_proj "p" "y" output_fails))) /\
  snd (in_proj "p" "y" output_fails) = Return tt.
Proof.
  assert (Hin : In (Raised (pdf_output proj_pdf) (PermissionError []))
                   (fst (in_proj "p" "y" output_fails)))
    by (do 12 right; left; reflexivity).
  split; [exact Hin|].
  split; [|reflexivity].
  exact (proj1 (saving_error_is_reported _ _ _ _ _ _ _ _ _ _ _ _ _ _ _ _ _ _ _
                  (surjective_pairing (in_proj "p" "y" output_fails))
                  Hin eq_refl)).
Defined.

Lemma saved_lines_are_the_printed_lines_witness :
  In (f_write (String.concat newline ["|-- a.txt"; "`-- b.txt"]))
     (map (@call_of (list string) oserror) (fst (in_proj "t" "n" no_failure))) /\
  In (Returned (print_ (String.concat newline ["|-- a.txt"; "`-- b.txt"])) VNone)
     (fst (in_proj "t" "n" no_failure)).
Proof.
  assert (Hin : In (f_write (String.concat newline ["|-- a.txt"; "`-- b.txt"]))
                   (map (@call_of (list string) oserror)
                        (fst (in_proj "t" "n" no_failure))))
    by (do 7 right; left; reflexivity).
  split; [exact Hin|].
  destruct (proj1 (saved_lines_are_the_printed_lines _ _ _ _ _ _ _ _ _ _ _ _ _
                     _ _ _ _
                     (surjective_pairing (in_proj "t" "n" no_failure)))
                  _ Hin) as (root & lines & _ & _ & _ & Hp).
  exact Hp.
Defined.

Lemma file_goes_under_documents_witness :
  In (open_ proj_txt "w" "utf-8")
     (map (@call_of (list string) oserror) (fst (in_proj "t" "n" no_failure))) /\
  exists root answer home,
    In (Returned Path_cwd (VPath root)) (fst (in_proj "t" "n" no_failure)) /\
    answer = "t" /\
    proj_txt = t_join (t_join (t_join home "Documents") "pps")
                      (last root "" +++ "." +++ "txt").
Proof.
  assert (Hin : In (open_ proj_txt "w" "utf-8")
                   (map (@call_of (list string) oserror)
                        (fst (in_proj "t" "n" no_failure))))
    by (do 6 right; left; reflexivity).
  split; [exact Hin|].
  destruct (file_goes_under_documents _ _ _ _ _ _ _ _ _ _ _ _ _ _ _ _ _ _ _ _ _
              (surjective_pairing (in_proj "t" "n" no_failure)) Hin
              (or_intror eq_refl))
    as (root & answer & home & Hc & _ & _ & _ & [(E & _) | (_ & Ha & Hp)]);
    [discriminate|].
  exists root, answer, home. split; [exact Hc|]. split; [exact Ha | exact Hp].
Defined.


(** * Directories that are passed over, and the depth of the recursion *)


Lemma chain_is_Dir k : exists entries, chain k = Dir entries.
Proof. destruct k; simpl; eauto. Qed.

Lemma listable_chain k : listable (chain k) = true.
Proof. induction k as [|k IH]; simpl; [reflexivity | now rewrite IH]. Qed.

Lemma height_chain k : height (chain k) = S k.
Proof.
  induction k as [|k IH]; [reflexivity|].
  change (height (chain (S k))) with (S (Nat.max (height (chain k)) 0)).
  rewrite IH. lia.
Qed.

(** A budget that does not exceed the number of nested directories is
    exhausted. *)
Lemma chain_exhausts root fuel :
  forall k p prefix,
    resolve root p = Some (chain k) -> fuel <= k ->
    render root fuel p prefix = OutOfFuel.
Proof.
  induction fuel as [|fuel IH]; intros k p prefix Hp Hk; [reflexivity|].
  destruct k as [|k]; [lia|].
  assert (Hc : resolve root (p ++ ["d"]) = Some (chain k)).
  { rewrite resolve_snoc, Hp. simpl. reflexivity. }
  assert (Hd : t_isdir root (t_join p "d") = true).
  { unfold t_isdir, t_join. rewrite Hc.
    destruct (chain_is_Dir k) as [es ->]. reflexivity. }
  unfold render. rewrite print_S. unfold t_listdir at 1. rewrite Hp.
  simpl chain. cbn [map fst].
  unfold dirs_of.
  change (sorted ["d"]) with ["d"]. cbn [filter]. rewrite Hd.
  cbn [enumerate length seq combine dirs_loop].
  change (print_directory_tree (t_listdir root) (t_isfile root) (t_isdir root)
            t_join fuel (t_join p "d"))
    with (render root fuel (p ++ ["d"])).
  rewrite (IH k (p ++ ["d"]) _ Hc) by lia. reflexivity.
Qed.



(** * The text sink on a concrete world *)

Lemma text_round_trip_witness :
  ["|-- a.txt"; "`-- b.txt"] <> [] /\
  Forall (fun l => has_newline l = false) ["|-- a.txt"; "`-- b.txt"] /\
  snd (exec text_world []
            (save_to_text_file_calls ["|-- a.txt"; "`-- b.txt"] "tree.txt"))
  = Return tt /\
  exists ev text,
    fst (exec text_world []
              (save_to_text_file_calls ["|-- a.txt"; "`-- b.txt"] "tree.txt"))
    = [] ++ ev /\
    file_effect ev no_files "tree.txt" = Some text /\
    text = String.concat newline ["|-- a.txt"; "`-- b.txt"] /\
    split_newline text = ["|-- a.txt"; "`-- b.txt"].
Proof.
  assert (Hne : ["|-- a.txt"; "`-- b.txt"] <> []) by discriminate.
  assert (Hall : Forall (fun l => has_newline l = false) ["|-- a.txt"; "`-- b.txt"])
    by (repeat constructor).
  split; [exact Hne|]. split; [exact Hall|]. split; [reflexivity|].
  exact (text_round_trip oserror _ "tree.txt" text_world [] no_files
           Hne Hall eq_refl).
Defined.

(** The claim C9 as stated fails on the empty sequence: the run returns,
    the text in the file is empty, and splitting the empty text gives one
    empty line. *)
Lemma empty_sequence_does_not_round_trip :
  exec text_world [] (save_to_text_file_calls [] "tree.txt")
  = ([Returned (open_ "tree.txt" "w" "utf-8") VNone;
      Returned (f_write "") (VInt 0);
      Returned f_close VNone], Return tt) /\
  file_effect (fst (exec text_world [] (save_to_text_file_calls [] "tree.txt")))
              no_files "tree.txt" = Some "" /\
  split_newline "" = [""] /\
  split_newline "" <> [].
Proof. repeat split. discriminate. Qed.

Lemma round_trip_exactly_when_witness :
  snd (exec text_world []
            (save_to_text_file_calls ["a"; "b" +++ newline +++ "c"] "tree.txt"))
  = Return tt /\
  exists ev text,
    fst (exec text_world []
              (save_to_text_file_calls ["a"; "b" +++ newline +++ "c"] "tree.txt"))
    = [] ++ ev /\
    file_effect ev no_files "tree.txt" = Some text /\
    (split_newline text = ["a"; "b" +++ newline +++ "c"] <->
     ["a"; "b" +++ newline +++ "c"] <> [] /\
     Forall (fun l => has_newline l = false) ["a"; "b" +++ newline +++ "c"]).
Proof.
  split; [reflexivity|].
  exact (round_trip_exactly_when oserror ["a"; "b" +++ newline +++ "c"]
           "tree.txt" text_world [] no_files eq_refl).
Defined.
